(** * kobo-dashboard: today's calendar events

    A shallow embedding of [calendar_processor.py] (the scheduled service,
    class [CalendarProcessor]) and of [parse_calendar.py] (the one-shot
    script), with the properties of their specification.

    Layout: the library layer the two programs stand on ([Datetime], [Pytz],
    [Json], [Icalendar]), the effect layer ([Runtime]: log, output file,
    clock, exceptions), the two programs, and then the theorems. *)

From Stdlib Require Import ZArith List String Ascii Bool Lia.
From Stdlib Require Import Sorting.Sorted Sorting.Permutation.
From Stdlib Require Import Structures.OrderedTypeEx Relations.
Import ListNotations.

Local Open Scope Z_scope.

(* ================================================================== *)
(** * Library layer *)

(** ** [datetime]: proleptic Gregorian dates and wall-clock values *)
Module Datetime.

(** Day number of a civil date, counted from 1970-01-01 (day 0). *)
Definition days_from_civil (y m d : Z) : Z :=
  let y' := if m <=? 2 then y - 1 else y in
  let era := y' / 400 in
  let yoe := y' - era * 400 in
  let mp := if m >? 2 then m - 3 else m + 9 in
  let doy := (153 * mp + 2) / 5 + d - 1 in
  let doe := yoe * 365 + yoe / 4 - yoe / 100 + doy in
  era * 146097 + doe - 719468.

(** The civil date (year, month, day) of a day number. *)
Definition civil_from_days (z : Z) : Z * Z * Z :=
  let z' := z + 719468 in
  let era := z' / 146097 in
  let doe := z' - era * 146097 in
  let yoe := (doe - doe / 1460 + doe / 36524 - doe / 146096) / 365 in
  let y := yoe + era * 400 in
  let doy := doe - (365 * yoe + yoe / 4 - yoe / 100) in
  let mp := (5 * doy + 2) / 153 in
  let d := doy - (153 * mp + 2) / 5 + 1 in
  let m := if mp <? 10 then mp + 3 else mp - 9 in
  (if m <=? 2 then y + 1 else y, m, d).

(** Day of the week of a day number: 0 is Sunday (1970-01-01 was a
    Thursday). *)
Definition weekday_from_days (z : Z) : Z := (z + 4) mod 7.

(** [datetime.date]: a calendar date with no time of day and no zone. *)
Record date : Set := Date { days : Z }.

Definition date_eqb (a b : date) : bool := days a =? days b.

(** [datetime.datetime], to the second (iCalendar carries no fraction of a
    second): [wall] is the number of seconds from 1970-01-01T00:00:00 read
    on the value's own wall clock; [tzinfo] is [None] for a naive value and
    [Some off] for an aware one, [off] being the UTC offset in seconds its
    tzinfo reports (pytz attaches a fixed-offset tzinfo to each value). *)
Record datetime : Set := DateTime { wall : Z; tzinfo : option Z }.

Definition mkdate (y m d : Z) : date := Date (days_from_civil y m d).

Definition mkwall (y m d hh mm ss : Z) : Z :=
  days_from_civil y m d * 86400 + hh * 3600 + mm * 60 + ss.

Definition naive (y m d hh mm ss : Z) : datetime :=
  DateTime (mkwall y m d hh mm ss) None.

Definition aware (y m d hh mm ss off : Z) : datetime :=
  DateTime (mkwall y m d hh mm ss) (Some off).

(** [dt.date()] *)
Definition date_of (dt : datetime) : date := Date (wall dt / 86400).

(** [datetime.combine(d, datetime.min.time())] *)
Definition combine_min (d : date) : datetime :=
  DateTime (days d * 86400) None.

(** [dt + timedelta(seconds=s)]: wall-clock arithmetic, tzinfo kept. *)
Definition add_seconds (dt : datetime) (s : Z) : datetime :=
  DateTime (wall dt + s) (tzinfo dt).

(** [dt.replace(tzinfo=timezone.utc)] *)
Definition replace_utc (dt : datetime) : datetime :=
  DateTime (wall dt) (Some 0).

(** The instant (seconds from the epoch, UTC) of an aware value. *)
Definition instant (w off : Z) : Z := w - off.

(** *** [isoformat] *)

Definition digit (n : Z) : ascii := ascii_of_nat (48 + Z.to_nat (n mod 10)).

Definition pad2 (n : Z) : string :=
  String (digit (n / 10)) (String (digit n) EmptyString).

Definition pad4 (n : Z) : string :=
  String (digit (n / 1000)) (String (digit (n / 100)) (pad2 n)).

Definition iso_date (z : Z) : string :=
  let '(y, m, d) := civil_from_days z in
  (pad4 y ++ "-" ++ pad2 m ++ "-" ++ pad2 d)%string.

Definition iso_time (sod : Z) : string :=
  (pad2 (sod / 3600) ++ ":" ++ pad2 (sod / 60 mod 60) ++ ":"
     ++ pad2 (sod mod 60))%string.

(** The numeric offset: [+HH:MM], and [:SS] only when the seconds are not
    zero; a zero offset prints as [+00:00], never as [Z]. *)
Definition iso_offset (off : Z) : string :=
  let sign := if off <? 0 then "-"%string else "+"%string in
  let a := Z.abs off in
  let ss := a mod 60 in
  (sign ++ pad2 (a / 3600) ++ ":" ++ pad2 (a / 60 mod 60)
     ++ (if (ss =? 0)%Z then EmptyString else ":" ++ pad2 ss))%string.

(** [d.isoformat()] of a date: the bare date. *)
Definition date_isoformat (d : date) : string := iso_date (days d).

(** [dt.isoformat()] of a datetime. *)
Definition isoformat (dt : datetime) : string :=
  (iso_date (wall dt / 86400) ++ "T" ++ iso_time (wall dt mod 86400)
     ++ match tzinfo dt with
        | Some off => iso_offset off
        | None => EmptyString
        end)%string.

End Datetime.

(** ** [pytz]: the target zone *)
Module Pytz.
Import Datetime.

(** A zone of the tz database, as the two questions the programs ask of
    it: the offset in force at an instant ([fromutc], behind
    [astimezone]), and the offset [localize] attaches to a wall-clock
    value (with [is_dst=False], the default). Offsets are in seconds. *)
Record timezone : Type := Timezone {
  utcoffset_at : Z -> Z;
  localize_offset : Z -> Z
}.

(** [tz.localize(dt)] for a naive [dt]. *)
Definition localize (tz : timezone) (dt : datetime) : datetime :=
  DateTime (wall dt) (Some (localize_offset tz (wall dt))).

(** [tz.fromutc]: the aware value, in [tz], of an instant. *)
Definition fromutc (tz : timezone) (utc : Z) : datetime :=
  let off := utcoffset_at tz utc in
  DateTime (utc + off) (Some off).

(** [dt.astimezone(tz)]. An aware value is taken at its own offset; a
    naive one is presumed to be wall-clock time of the host's local zone,
    [local] giving that zone's offset for a wall-clock value. *)
Definition astimezone (local : Z -> Z) (dt : datetime) (tz : timezone)
  : datetime :=
  let off := match tzinfo dt with
             | Some off => off
             | None => local (wall dt)
             end in
  fromutc tz (instant (wall dt) off).

(** [datetime.now(tz).date()] when the clock reads the instant [utc]. *)
Definition today_at (tz : timezone) (utc : Z) : date :=
  date_of (fromutc tz utc).

(** The last Sunday on or before a civil date, as a day number. *)
Definition last_sunday (y m d : Z) : Z :=
  let z := days_from_civil y m d in z - weekday_from_days z.

Definition year_of (z : Z) : Z := fst (fst (civil_from_days z)).

(** Summer time starts on the last Sunday of March and ends on the last
    Sunday of October, both at 01:00 UTC (the rule in force for
    Europe/London since 1996). *)
Definition bst_start (y : Z) : Z := last_sunday y 3 31 * 86400 + 3600.
Definition bst_end (y : Z) : Z := last_sunday y 10 31 * 86400 + 3600.

Definition london_utcoffset (utc : Z) : Z :=
  let y := year_of (utc / 86400) in
  if (bst_start y <=? utc) && (utc <? bst_end y) then 3600 else 0.

(** [localize] with [is_dst=False]: a wall-clock value that exists only in
    summer time gets +01:00; the skipped hour and the repeated hour both
    resolve to +00:00. *)
Definition london_localize_offset (w : Z) : Z :=
  let y := year_of (w / 86400) in
  if (bst_start y + 3600 <=? w) && (w <? bst_end y) then 3600 else 0.

Definition Europe_London : timezone :=
  Timezone london_utcoffset london_localize_offset.

End Pytz.

(** ** [str]: the text operations the configuration loader uses *)
Module Str.

Local Open Scope string_scope.

(** Characters are code points below 256. [isspace] is Python's
    [str.isspace] on that range. *)
Definition isspace (c : ascii) : bool :=
  let n := nat_of_ascii c in
  (((9 <=? n) && (n <=? 13)) || ((28 <=? n) && (n <=? 32))
   || (n =? 133) || (n =? 160))%nat.

Fixpoint lstrip (s : string) : string :=
  match s with
  | String c s' => if isspace c then lstrip s' else s
  | EmptyString => EmptyString
  end.

Fixpoint rstrip (s : string) : string :=
  match s with
  | String c s' =>
      match rstrip s' with
      | EmptyString => if isspace c then EmptyString
                       else String c EmptyString
      | r => String c r
      end
  | EmptyString => EmptyString
  end.

(** [s.strip()] *)
Definition strip (s : string) : string := rstrip (lstrip s).

(** [s.split(',')]: one more piece than there are commas, never empty. *)
Fixpoint split_comma (s : string) : list string :=
  match s with
  | EmptyString => [EmptyString]
  | String c s' =>
      if Ascii.eqb c ","%char then EmptyString :: split_comma s'
      else match split_comma s' with
           | p :: ps => String c p :: ps
           | [] => [String c EmptyString]
           end
  end.

(** Truth value of a [str]: non-empty. *)
Definition truthy (s : string) : bool :=
  match s with EmptyString => false | _ => true end.

(** The first [n] characters. *)
Fixpoint prefix (n : nat) (s : string) : string :=
  match n, s with
  | S n', String c s' => String c (prefix n' s')
  | _, _ => EmptyString
  end.

End Str.

(** ** The output record *)

(** The dictionary both programs build for an event; [start] and [end_] are
    the [dateTime] strings of its two nested dictionaries. *)
Record event : Set := Event {
  summary : string;
  start : string;
  end_ : string;
  description : string;
  location : string;
  calendarSource : string
}.

(** ** [json]: serialisation of the event list with [indent=2] *)
Module Json.

Local Open Scope string_scope.

Definition quote : string := String (ascii_of_nat 34) EmptyString.
Definition backslash : string := String (ascii_of_nat 92) EmptyString.
Definition nl : string := String (ascii_of_nat 10) EmptyString.

Definition hexdigit (n : nat) : ascii :=
  if (n <? 10)%nat then ascii_of_nat (48 + n) else ascii_of_nat (87 + n).

(** [\u00xx] for a code point below 256. *)
Definition uescape (n : nat) : string :=
  backslash ++ "u00"
    ++ String (hexdigit (n / 16)) (String (hexdigit (n mod 16)) EmptyString).

(** The escape of one character. With [ensure_ascii] every character
    outside the printable ASCII range is escaped; without it only the
    control characters, the quote and the backslash are. *)
Definition escape_char (ensure_ascii : bool) (c : ascii) : string :=
  let n := nat_of_ascii c in
  if (n =? 34)%nat then backslash ++ quote
  else if (n =? 92)%nat then backslash ++ backslash
  else if (n =? 10)%nat then backslash ++ "n"
  else if (n =? 13)%nat then backslash ++ "r"
  else if (n =? 9)%nat then backslash ++ "t"
  else if (n =? 12)%nat then backslash ++ "f"
  else if (n =? 8)%nat then backslash ++ "b"
  else if (n <? 32)%nat then uescape n
  else if ensure_ascii && (126 <? n)%nat then uescape n
  else String c EmptyString.

Fixpoint escape (ensure_ascii : bool) (s : string) : string :=
  match s with
  | EmptyString => EmptyString
  | String c s' => escape_char ensure_ascii c ++ escape ensure_ascii s'
  end.

Definition str (ea : bool) (s : string) : string :=
  quote ++ escape ea s ++ quote.

Definition key (k : string) : string := quote ++ k ++ quote ++ ": ".

(** One event dictionary, at nesting level 1 of the array. *)
Definition event_object (ea : bool) (e : event) : string :=
  "  {" ++ nl
  ++ "    " ++ key "summary" ++ str ea (summary e) ++ "," ++ nl
  ++ "    " ++ key "start" ++ "{" ++ nl
  ++ "      " ++ key "dateTime" ++ str ea (start e) ++ nl
  ++ "    }," ++ nl
  ++ "    " ++ key "end" ++ "{" ++ nl
  ++ "      " ++ key "dateTime" ++ str ea (end_ e) ++ nl
  ++ "    }," ++ nl
  ++ "    " ++ key "description" ++ str ea (description e) ++ "," ++ nl
  ++ "    " ++ key "location" ++ str ea (location e) ++ "," ++ nl
  ++ "    " ++ key "calendarSource" ++ str ea (calendarSource e) ++ nl
  ++ "  }".

Fixpoint items (ea : bool) (l : list event) : string :=
  match l with
  | [] => EmptyString
  | [e] => event_object ea e
  | e :: l' => event_object ea e ++ "," ++ nl ++ items ea l'
  end.

(** [json.dumps(all_events, indent=2, ensure_ascii=ea)] *)
Definition dumps (ea : bool) (l : list event) : string :=
  match l with
  | [] => "[]"
  | _ => "[" ++ nl ++ items ea l ++ nl ++ "]"
  end.

End Json.

(** ** [icalendar]: what the parser hands over *)
Module Icalendar.
Import Datetime.

(** The [dt] of a date-valued property: a [date] or a [datetime]. *)
Inductive dt_value : Set :=
| D (d : date)
| DT (t : datetime).

(** [hasattr(dt, 'astimezone')]: like [date()], a method of [datetime]
    (naive or aware) and of [datetime] only. *)
Definition hasattr_astimezone (dt : dt_value) : bool :=
  match dt with DT _ => true | D _ => false end.

(** What [component.get('dtstart')] holds when the property is there: the
    property object, whose [dt] is the value; or, when the component
    repeats the property, the list of the objects, which has no [dt]. *)
Inductive prop : Set :=
| vDDDTypes (dt : dt_value)
| vList (l : list dt_value).

(** One component of the walk over the calendar. The text properties are
    held as [str(...)] renders them. *)
Record component : Set := Component {
  name : string;
  dtstart : option prop;
  dtend : option prop;
  text_summary : option string;
  text_description : option string;
  text_location : option string
}.

(** Truth value of [component.get(...)]: [None] and the empty list are
    false. *)
Definition truthy (p : option prop) : bool :=
  match p with
  | None => false
  | Some (vDDDTypes _) => true
  | Some (vList l) => match l with [] => false | _ => true end
  end.

(** [str(component.get(key, default))] *)
Definition str_get (p : option string) (default : string) : string :=
  match p with Some s => s | None => default end.

End Icalendar.

Import Datetime Pytz Icalendar.

(* ================================================================== *)
(** * Effect layer *)

Module Runtime.

(** The exceptions the library calls raise. *)
Inductive exn : Set :=
| URLError | ValueError | AttributeError | OSError | UnknownTimeZoneError.

Inductive outcome (A : Type) : Type :=
| Returns (a : A)
| Raises (e : exn).
Arguments Returns {A} a.
Arguments Raises {A} e.

Inductive level : Set := INFO | WARNING | ERROR.

(** The lines the programs log or print to the standard error. *)
Inductive message : Set :=
| UsingTimezone (tzname : string)
| ConfigUnset
| ConfigMismatch
| Loaded (n : nat)
| Starting
| Fetching (url : string)
| FetchError (url : string) (e : exn)
| ProcessingDate (today : date) (calendar_name : string)
| Processed (total found : nat) (calendar_name : string)
| Found (summary start_time calendar_name : string)
| ParseError (calendar_name : string) (e : exn)
| EventError (e : exn)
| CalendarError (calendar_name : string) (e : exn)
| Saved (n : nat) (path : string)
| Count (calendar_name : string) (n : nat)
| WriteError (path : string) (e : exn)
| ProcessingCalendar (calendar_name : string)
| FoundToday (n : nat) (calendar_name : string).

(** What a run can change: the log, the files on disk, the standard
    output and the standard error, and how often the clock was read. *)
Record world : Type := World {
  log : list (level * message);
  files : string -> option string;
  stdout : list string;
  stderr : list message;
  ticks : nat
}.

(** How writing the output file goes: well, or [open] fails, or the
    writing fails when [n] characters have reached the disk. *)
Inductive io_fault : Set :=
| NoFault
| OpenFails
| WriteFails (n : nat).

(** What a run reads from outside: the process environment, the tz
    database ([pytz.timezone(name)], which raises for a name it does not
    hold), the network, the iCalendar parser ([from_ical] followed by
    [walk]), the clock (its [n]-th reading, an instant), the host's local
    zone, and the fate of the file write. *)
Record host : Type := Host {
  environ : string -> option string;
  pytz_timezone : string -> outcome timezone;
  urlopen : string -> outcome string;
  from_ical : string -> outcome (list component);
  clock : nat -> Z;
  local_utcoffset : Z -> Z;
  disk_fault : io_fault
}.

(** [os.getenv(key, default)] *)
Definition getenv (h : host) (key default : string) : string :=
  match environ h key with Some v => v | None => default end.

(** Computations: a state over [world] that may raise. *)
Definition M (A : Type) : Type := world -> outcome A * world.

Definition ret {A} (a : A) : M A := fun w => (Returns a, w).

Definition bind {A B} (m : M A) (k : A -> M B) : M B :=
  fun w => match m w with
           | (Returns a, w') => k a w'
           | (Raises e, w') => (Raises e, w')
           end.

Definition lift {A} (o : outcome A) : M A := fun w => (o, w).

(** [try: m except Exception as e: handler(e)] *)
Definition try_except {A} (m : M A) (handler : exn -> M A) : M A :=
  fun w => match m w with
           | (Returns a, w') => (Returns a, w')
           | (Raises e, w') => handler e w'
           end.

(** A [for] loop over [l] that updates the local variables [s]. *)
Fixpoint for_loop {A S} (body : S -> A -> M S) (l : list A) (s : S)
  : M S :=
  match l with
  | [] => ret s
  | a :: l' => bind (body s a) (for_loop body l')
  end.

Definition emit (lv : level) (m : message) : M unit :=
  fun w => (Returns tt,
            World (log w ++ [(lv, m)]) (files w) (stdout w) (stderr w)
                  (ticks w)).

Definition logger_info := emit INFO.
Definition logger_warning := emit WARNING.
Definition logger_error := emit ERROR.

(** [print(..., file=sys.stderr)] *)
Definition eprint (m : message) : M unit :=
  fun w => (Returns tt,
            World (log w) (files w) (stdout w) (stderr w ++ [m])
                  (ticks w)).

(** [print(text)] *)
Definition print (text : string) : M unit :=
  fun w => (Returns tt,
            World (log w) (files w) (stdout w ++ [text]) (stderr w)
                  (ticks w)).

(** [datetime.now(tz).date()]: one reading of the clock. *)
Definition today (h : host) (tz : timezone) : M date :=
  fun w => (Returns (today_at tz (clock h (ticks w))),
            World (log w) (files w) (stdout w) (stderr w) (S (ticks w))).

Definition store (path : string) (text : string) (w : world) : world :=
  World (log w)
        (fun p => if String.eqb p path then Some text else files w p)
        (stdout w) (stderr w) (ticks w).

(** [with open(path, 'w') as f: f.write(text)]. Opening for writing
    empties the file; what is written before a failure stays in it. *)
Definition write_text (h : host) (path text : string) : M unit :=
  fun w => match disk_fault h with
           | NoFault => (Returns tt, store path text w)
           | OpenFails => (Raises OSError, w)
           | WriteFails n => (Raises OSError, store path (Str.prefix n text) w)
           end.

End Runtime.

Declare Scope monad_scope.
Notation "x <- m ;; k" := (Runtime.bind m (fun x => k))
  (at level 61, m at next level, right associativity) : monad_scope.
Notation "m ;; k" := (Runtime.bind m (fun _ => k))
  (at level 61, right associativity) : monad_scope.

Import Runtime.

(* ================================================================== *)
(** * The programs *)

(** A feed descriptor: the dictionary with the keys [name] and [url]. *)
Record feed : Set := Feed { feed_name : string; feed_url : string }.

(** ** What the two programs share by text *)
Module Common.

(** The loop both programs run over [enumerate(ical_urls)]; [i] is the
    index of the head of [urls]. *)
Fixpoint pair_up (i : nat) (urls names : list string) : list feed :=
  match urls with
  | [] => []
  | url :: urls' =>
      if Str.truthy (Str.strip url) && (i <? List.length names)%nat
      then Feed (Str.strip (nth i names EmptyString)) (Str.strip url)
             :: pair_up (S i) urls' names
      else pair_up (S i) urls' names
  end.

(** [all_events.sort(key=lambda x: x['start']['dateTime'])]. Python's sort
    is stable and compares strings code point by code point. It is
    modelled by the stable insertion sort: [insert] puts an event before
    the first one whose start is not smaller. *)
Fixpoint insert (e : event) (l : list event) : list event :=
  match l with
  | [] => [e]
  | x :: l' =>
      if String.leb (start e) (start x) then e :: l
      else x :: insert e l'
  end.

Fixpoint sort_by_start (l : list event) : list event :=
  match l with
  | [] => []
  | e :: l' => insert e (sort_by_start l')
  end.

End Common.

(** ** [calendar_processor.py] *)
Module CalendarProcessor.

Local Open Scope monad_scope.

(** The attributes of a [CalendarProcessor] instance. *)
Record self_t : Type := Self {
  self_timezone : timezone;
  self_output_file : string;
  self_calendars : list feed
}.

Section Methods.

Variable h : host.

Definition _load_calendar_config : M (list feed) :=
  let ical_urls := Str.split_comma (getenv h "ICAL_URLS" EmptyString) in
  let calendar_names :=
    Str.split_comma (getenv h "CALENDAR_NAMES" EmptyString) in
  match ical_urls, calendar_names with
  | [], _ | _, [] => logger_error ConfigUnset ;; ret []
  | _, _ =>
      if negb (List.length ical_urls =? List.length calendar_names)%nat
      then logger_error ConfigMismatch ;; ret []
      else
        let calendars := Common.pair_up 0 ical_urls calendar_names in
        logger_info (Loaded (List.length calendars)) ;;
        ret calendars
  end.

Definition __init__ : M self_t :=
  let timezone_name := getenv h "TIMEZONE" "Europe/London" in
  tz <- lift (pytz_timezone h timezone_name) ;;
  logger_info (UsingTimezone timezone_name) ;;
  let output_file := getenv h "CALENDAR_JSON_PATH" "./calendar.json" in
  calendars <- _load_calendar_config ;;
  ret (Self tz output_file calendars).

Variable self : self_t.

Definition _fetch_ical_data (url : string) : M (option string) :=
  try_except
    (logger_info (Fetching url) ;;
     data <- lift (urlopen h url) ;;
     ret (Some data))
    (fun e => logger_error (FetchError url e) ;; ret None).

Definition _get_event_date (dt : dt_value) : date :=
  match dt with
  | DT t =>
      (* It's a datetime object *)
      if hasattr_astimezone dt then
        (* Convert to configured timezone *)
        let tz_dt := astimezone (local_utcoffset h) t (self_timezone self) in
        date_of tz_dt
      else
        (* Naive datetime, assume UTC *)
        let utc_dt := replace_utc t in
        let tz_dt :=
          astimezone (local_utcoffset h) utc_dt (self_timezone self) in
        date_of tz_dt
  | D d =>
      (* It's already a date object *)
      d
  end.

Definition _format_datetime (dt : dt_value) : string :=
  match dt with
  | DT t =>
      (* It's a datetime object *)
      let tz_dt := astimezone (local_utcoffset h) t (self_timezone self) in
      isoformat tz_dt
  | D d =>
      (* It's a date object, assume start of day *)
      let tz_dt := localize (self_timezone self) (combine_min d) in
      isoformat tz_dt
  end.

(** [p.dt]: an attribute of the property object; a list has none. *)
Definition dt_of (p : option prop) : outcome dt_value :=
  match p with
  | Some (vDDDTypes dt) => Returns dt
  | _ => Raises AttributeError
  end.

(** [dt + timedelta(minutes=30)]: a [date] takes the whole days of the
    duration only. *)
Definition plus_30_minutes (dt : dt_value) : dt_value :=
  match dt with
  | DT t => DT (add_seconds t 1800)
  | D d => D (Date (days d + 1800 / 86400))
  end.

Definition _process_event (event_component : component)
    (target_date : date) (calendar_name : string) : M (option event) :=
  try_except
    (let dtstart := dtstart event_component in
     if negb (truthy dtstart) then ret None
     else
       dt <- lift (dt_of dtstart) ;;
       let event_date := _get_event_date dt in
       if negb (date_eqb event_date target_date) then ret None
       else
         let summary :=
           str_get (text_summary event_component) "Untitled Event" in
         let start_iso := _format_datetime dt in
         let dtend := dtend event_component in
         end_iso <- (if truthy dtend
                     then (edt <- lift (dt_of dtend) ;;
                           ret (_format_datetime edt))
                     else if hasattr_astimezone dt
                     then (let end_dt := plus_30_minutes dt in
                           ret (_format_datetime end_dt))
                     else ret start_iso) ;;
         ret (Some (Event summary start_iso end_iso
                      (str_get (text_description event_component)
                               EmptyString)
                      (str_get (text_location event_component)
                               EmptyString)
                      calendar_name)))
    (fun e => logger_warning (EventError e) ;; ret None).

(** The body of the loop over [cal.walk()]; the local variables are
    [events] and [total_components]. *)
Definition walk_step (today : date) (calendar_name : string)
    (st : list event * nat) (c : component) : M (list event * nat) :=
  let '(events, total_components) := st in
  if String.eqb (name c) "VEVENT" then
    ev <- _process_event c today calendar_name ;;
    match ev with
    | Some e => ret (events ++ [e], S total_components)
    | None => ret (events, S total_components)
    end
  else ret st.

Definition _parse_calendar_events (ical_data : string)
    (calendar_name : string) : M (list event) :=
  try_except
    (cal <- lift (from_ical h ical_data) ;;
     today <- today h (self_timezone self) ;;
     logger_info (ProcessingDate today calendar_name) ;;
     st <- for_loop (walk_step today calendar_name) cal ([], 0%nat) ;;
     let '(events, total_components) := st in
     logger_info (Processed total_components (List.length events)
                            calendar_name) ;;
     for_loop (fun _ e =>
                 logger_info (Found (summary e) (start e) calendar_name))
              events tt ;;
     ret events)
    (fun e => logger_error (ParseError calendar_name e) ;; ret []).

(** [calendar_counts]: a dictionary, in the order of first insertion. *)
Fixpoint bump (cal_name : string) (counts : list (string * nat))
  : list (string * nat) :=
  match counts with
  | [] => [(cal_name, 1%nat)]
  | (k, n) :: rest =>
      if String.eqb k cal_name then (k, S n) :: rest
      else (k, n) :: bump cal_name rest
  end.

Definition calendar_counts (all_events : list event)
  : list (string * nat) :=
  fold_left (fun counts e => bump (calendarSource e) counts)
            all_events [].

(** The body of the loop over [self.calendars]. *)
Definition calendar_step (all_events : list event) (calendar : feed)
  : M (list event) :=
  try_except
    (ical_data <- _fetch_ical_data (feed_url calendar) ;;
     match ical_data with
     | None | Some EmptyString => ret all_events (* continue *)
     | Some data =>
         events <- _parse_calendar_events data (feed_name calendar) ;;
         ret (all_events ++ events)
     end)
    (fun e =>
       logger_error (CalendarError (feed_name calendar) e) ;;
       ret all_events).

Definition process_calendars : M unit :=
  logger_info Starting ;;
  all_events <- for_loop calendar_step (self_calendars self) [] ;;
  let all_events := Common.sort_by_start all_events in
  try_except
    (write_text h (self_output_file self) (Json.dumps false all_events) ;;
     logger_info (Saved (List.length all_events) (self_output_file self)) ;;
     for_loop (fun _ '(cal_name, count) =>
                 logger_info (Count cal_name count))
              (calendar_counts all_events) tt)
    (fun e => logger_error (WriteError (self_output_file self) e)).

End Methods.

End CalendarProcessor.

(** ** [parse_calendar.py] *)
Module ParseCalendar.

Local Open Scope monad_scope.

Section Script.

Variable h : host.

(** [p.dt], as in the service. *)
Definition dt_of (p : option prop) : outcome dt_value :=
  match p with
  | Some (vDDDTypes dt) => Returns dt
  | _ => Raises AttributeError
  end.

(** The formatting of a start or end value: a datetime goes to the
    target zone, a date is printed as it is. *)
Definition format_value (timezone_obj : timezone) (dt : dt_value)
  : string :=
  match dt with
  | DT t => isoformat (astimezone (local_utcoffset h) t timezone_obj)
  | D d => date_isoformat d
  end.

(** The body of the loop over [cal.walk()]; the local variable is
    [events]. An exception leaves the loop. *)
Definition walk_step (timezone_obj : timezone) (today : date)
    (calendar_name : string) (events : list event) (c : component)
  : M (list event) :=
  if String.eqb (name c) "VEVENT" then
    let event := c in
    let dtstart := dtstart event in
    if negb (truthy dtstart) then ret events (* continue *)
    else
      dt <- lift (dt_of dtstart) ;;
      let event_date :=
        match dt with
        | DT t => date_of t
        | D d => d
        end in
      let event_date :=
        match dt with
        | DT t =>
            let event_datetime_tz :=
              astimezone (local_utcoffset h) t timezone_obj in
            date_of event_datetime_tz
        | D _ => event_date
        end in
      if date_eqb event_date today then
        let summary := str_get (text_summary event) "Untitled Event" in
        let start_iso := format_value timezone_obj dt in
        let dtend := dtend event in
        end_iso <- (if truthy dtend
                    then (edt <- lift (dt_of dtend) ;;
                          ret (Some (format_value timezone_obj edt)))
                    else ret None) ;;
        let event_obj :=
          Event summary start_iso
                (match end_iso with
                 | Some s => if Str.truthy s then s else start_iso
                 | None => start_iso
                 end)
                (str_get (text_description event) EmptyString)
                (str_get (text_location event) EmptyString)
                calendar_name in
        ret (events ++ [event_obj])
      else ret events
  else ret events.

Definition parse_ical_url (url calendar_name : string)
    (timezone_obj : timezone) : M (list event) :=
  try_except
    (ical_data <- lift (urlopen h url) ;;
     cal <- lift (from_ical h ical_data) ;;
     today <- today h timezone_obj ;;
     for_loop (walk_step timezone_obj today calendar_name) cal [])
    (fun e => eprint (ParseError calendar_name e) ;; ret []).

(** The body of the loop over [calendars]. *)
Definition calendar_step (timezone_obj : timezone)
    (all_events : list event) (calendar : feed) : M (list event) :=
  eprint (ProcessingCalendar (feed_name calendar)) ;;
  events <- parse_ical_url (feed_url calendar) (feed_name calendar)
                           timezone_obj ;;
  eprint (FoundToday (List.length events) (feed_name calendar)) ;;
  ret (all_events ++ events).

Definition main : M unit :=
  let timezone_name := getenv h "TIMEZONE" "Europe/London" in
  timezone_obj <- lift (pytz_timezone h timezone_name) ;;
  let ical_urls := Str.split_comma (getenv h "ICAL_URLS" EmptyString) in
  let calendar_names :=
    Str.split_comma (getenv h "CALENDAR_NAMES" EmptyString) in
  match ical_urls, calendar_names with
  | [], _ | _, [] => eprint ConfigUnset
  | _, _ =>
      if negb (List.length ical_urls =? List.length calendar_names)%nat
      then eprint ConfigMismatch
      else
        let calendars := Common.pair_up 0 ical_urls calendar_names in
        all_events <- for_loop (calendar_step timezone_obj) calendars [] ;;
        let all_events := Common.sort_by_start all_events in
        print (Json.dumps true all_events)
  end.

End Script.

End ParseCalendar.

(* ================================================================== *)
(** * Vocabulary of the statements *)

Import CalendarProcessor.

(** A property that is present (true as a condition) and has no [dt]. *)
Definition unreadable (p : option prop) : bool :=
  truthy p && match dt_of p with Raises _ => true | Returns _ => false end.

(** The result of a computation, and the world it leaves. *)
Definition result {A} (r : outcome A * world) : outcome A := fst r.
Definition after {A} (r : outcome A * world) : world := snd r.

(** The content of the service's output file. *)
Definition output (self : self_t) (w : world) : option string :=
  files w (self_output_file self).

(** The events the service has gathered, in feed order, when it sorts. *)
Definition gathered (h : host) (self : self_t) (w : world)
  : outcome (list event) :=
  result (for_loop (calendar_step h self) (self_calendars self) []
                   (after (logger_info Starting w))).

(** The same service with another list of feeds. *)
Definition with_calendars (self : self_t) (cs : list feed) : self_t :=
  Self (self_timezone self) (self_output_file self) cs.

(** The same host with another network. *)
Definition with_urlopen (h : host) (f : string -> outcome string) : host :=
  Host (environ h) (pytz_timezone h) f (from_ical h) (clock h)
       (local_utcoffset h) (disk_fault h).

(** The same host with another clock. *)
Definition with_clock (h : host) (c : nat -> Z) : host :=
  Host (environ h) (pytz_timezone h) (urlopen h) (from_ical h) c
       (local_utcoffset h) (disk_fault h).



(** ** Fixtures *)

(** A tz database that holds Europe/London and no other zone. *)
Definition tzdata (name : string) : outcome timezone :=
  if String.eqb name "Europe/London" then Returns Europe_London
  else Raises UnknownTimeZoneError.

(** A host for the examples: no environment, the tz database reduced to
    Europe/London, and the given local zone, clock, network and parser. *)
Definition fixture (local : Z -> Z) (now : nat -> Z)
    (net : string -> outcome string)
    (parser : string -> outcome (list component)) (fault : io_fault) : host :=
  Host (fun _ => None) tzdata net parser now local fault.

Definition no_net : string -> outcome string := fun _ => Raises URLError.
Definition no_parser : string -> outcome (list component) :=
  fun _ => Raises ValueError.

(** A host that keeps Europe/London time, and one that keeps UTC. *)
Definition london_host : host :=
  fixture (localize_offset Europe_London) (fun _ => 0) no_net no_parser
          NoFault.

Definition utc_host : host :=
  fixture (fun _ => 0) (fun _ => 0) no_net no_parser NoFault.

Definition london_self : self_t := Self Europe_London "./calendar.json" [].

Definition empty_world : world := World [] (fun _ => None) [] [] 0.

(** An event component with a start, maybe an end, and no text. *)
Definition vevent (s : option prop) (e : option prop) : component :=
  Component "VEVENT" s e None None None.


(** ** Comparing two runs *)

(** The world with more lines in its log. *)
Definition logged (w : world) (l : list (level * message)) : world :=
  World (log w ++ l) (files w) (stdout w) (stderr w) (ticks w).

(** Two computations that, from worlds related by [R], end with the same
    result in worlds related by [R]. *)
Definition related {A} (R : world -> world -> Prop) (m1 m2 : M A) : Prop :=
  forall w1 w2, R w1 w2 ->
    result (m1 w1) = result (m2 w2) /\ R (after (m1 w1)) (after (m2 w2)).

(** Same files, same standard output, same number of clock readings: all
    that a run can read back or hand to its consumer. The log and the
    standard error are free. *)
Definition same_disk_and_clock (w1 w2 : world) : Prop :=
  files w1 = files w2 /\ stdout w1 = stdout w2 /\ ticks w1 = ticks w2.

(** A fetch that makes the service skip the feed: it raised, or it returned
    no bytes. *)
Definition skipped (o : outcome string) : Prop :=
  o = Returns EmptyString \/ exists e, o = Raises e.

(** The second half of [process_calendars]: what it does with the events
    its loop has gathered. *)
Definition sort_and_save (h : host) (self : self_t) (all_events : list event)
  : M unit :=
  let all_events := Common.sort_by_start all_events in
  try_except
    (bind (write_text h (self_output_file self) (Json.dumps false all_events))
       (fun _ =>
          bind (logger_info (Saved (List.length all_events)
                                   (self_output_file self)))
            (fun _ =>
               for_loop (fun _ '(cal_name, count) =>
                           logger_info (Count cal_name count))
                        (calendar_counts all_events) tt)))
    (fun e => logger_error (WriteError (self_output_file self) e)).

(** The two ways a feed fails. *)
Definition fetch_fails (h : host) (c : feed) (e : exn) : Prop :=
  urlopen h (feed_url c) = Raises e.

Definition parse_fails (h : host) (c : feed) (e : exn) : Prop :=
  exists data, urlopen h (feed_url c) = Returns data
               /\ data <> EmptyString
               /\ from_ical h data = Raises e.

(** ** Inclusion *)

(** The end the service gives an event whose end property is absent. *)
Definition default_end (h : host) (self : self_t) (dt : dt_value) : string :=
  if hasattr_astimezone dt then _format_datetime h self (plus_30_minutes dt)
  else _format_datetime h self dt.

(** The record the service builds for a component that passes its tests. *)
Definition event_record (h : host) (self : self_t) (c : component)
    (dt : dt_value) (calendar_name : string) : event :=
  Event (str_get (text_summary c) "Untitled Event")
        (_format_datetime h self dt)
        (match dtend c with
         | Some (vDDDTypes edt) => _format_datetime h self edt
         | _ => default_end h self dt
         end)
        (str_get (text_description c) EmptyString)
        (str_get (text_location c) EmptyString)
        calendar_name.




(** The line the service logs when it drops a component. *)
Definition dropped_warning : level * message :=
  (WARNING, EventError AttributeError).

(** A host whose every feed holds the one component [c], whose clock reads
    2024-06-16T08:00:00Z, and whose local zone is UTC. *)
Definition one_event_host (c : component) : host :=
  fixture (fun _ => 0) (fun _ => mkwall 2024 6 16 8 0 0)
          (fun _ => Returns "BEGIN:VCALENDAR"%string)
          (fun _ => Returns [c]) NoFault.

(** A start at 2024-06-16T09:00:00+01:00 with no end, and a date-only start
    on 2024-06-16 with no end. *)
Definition nine_o_clock : component :=
  vevent (Some (vDDDTypes (DT (aware 2024 6 16 9 0 0 3600)))) None.

Definition all_day : component :=
  vevent (Some (vDDDTypes (D (mkdate 2024 6 16)))) None.

(** ** What every run does *)

(** The computation returns: no exception leaves it. *)
Definition total {A} (m : M A) : Prop :=
  forall w, exists a, result (m w) = Returns a.

(** The computation leaves every world in relation [P] with the world it
    started from. *)
Definition keeps {A} (P : world -> world -> Prop) (m : M A) : Prop :=
  forall w, P w (after (m w)).

(** The lines already logged are still there. *)
Definition log_extends (w w' : world) : Prop :=
  exists l, log w' = log w ++ l.

Definition grows {A} (m : M A) : Prop := keeps log_extends m.

(** The files and the standard output are as they were. *)
Definition untouched (w w' : world) : Prop :=
  files w' = files w /\ stdout w' = stdout w.

(** ** What one component and one walk come to *)

(** Reading the component raises inside [_process_event]. *)
Definition reading_raises (h : host) (self : self_t) (c : component)
    (target : date) : bool :=
  unreadable (dtstart c)
  || match dtstart c with
     | Some (vDDDTypes dt) =>
         date_eqb (_get_event_date h self dt) target && unreadable (dtend c)
     | _ => false
     end.

(** The event of a component, if it has one on the target date. *)
Definition event_of (h : host) (self : self_t) (c : component)
    (target : date) (calendar_name : string) : option event :=
  match dtstart c with
  | Some (vDDDTypes dt) =>
      if date_eqb (_get_event_date h self dt) target
         && negb (unreadable (dtend c))
      then Some (event_record h self c dt calendar_name)
      else None
  | _ => None
  end.

Definition is_vevent (c : component) : bool := String.eqb (name c) "VEVENT".

(** The events of a walk, in the order of the walk. *)
Definition walk_events (h : host) (self : self_t) (target : date)
    (calendar_name : string) (cal : list component) : list event :=
  flat_map (fun c => match event_of h self c target calendar_name with
                     | Some e => [e]
                     | None => []
                     end)
           (filter is_vevent cal).

(** ** A small network *)

(** Three events of 2024-06-16, London time. *)
Definition at_10 : component :=
  vevent (Some (vDDDTypes (DT (aware 2024 6 16 10 0 0 3600)))) None.
Definition at_12 : component :=
  vevent (Some (vDDDTypes (DT (aware 2024 6 16 12 0 0 3600)))) None.
Definition at_14 : component :=
  vevent (Some (vDDDTypes (DT (aware 2024 6 16 14 0 0 3600)))) None.

(** A component whose start property is repeated. *)
Definition twice_started : component :=
  vevent (Some (vList [D (mkdate 2024 6 16); D (mkdate 2024 6 17)])) None.

(** Feed A holds the events of 10:00 and 14:00, feed B the one of 12:00;
    a third address is down, a fourth answers with no bytes, a fifth with
    bytes that are no calendar. *)
Definition demo_net (url : string) : outcome string :=
  if String.eqb url "http://a" then Returns "A"%string
  else if String.eqb url "http://b" then Returns "B"%string
  else if String.eqb url "http://empty" then Returns EmptyString
  else if String.eqb url "http://junk" then Returns "junk"%string
  else Raises URLError.

Definition demo_parser (data : string) : outcome (list component) :=
  if String.eqb data "A" then Returns [at_10; at_14]
  else if String.eqb data "B" then Returns [at_12]
  else Raises ValueError.

(** Every reading of the clock is 08:00 UTC plus one second per reading. *)
Definition demo_host : host :=
  fixture (fun _ => 0) (fun n => mkwall 2024 6 16 8 0 0 + Z.of_nat n)
          demo_net demo_parser NoFault.

Definition feed_a : feed := Feed "A" "http://a".
Definition feed_b : feed := Feed "B" "http://b".
Definition feed_down : feed := Feed "Down" "http://down".
Definition feed_empty : feed := Feed "Empty" "http://empty".
Definition feed_junk : feed := Feed "Junk" "http://junk".

(** The host on which fetching [url] raises [e], all else being as on
    [h]. *)
Definition with_failing (h : host) (url : string) (e : exn) : host :=
  with_urlopen h (fun u => if String.eqb u url then Raises e
                           else urlopen h u).

(** ** The batches of a pass *)

(** The event sequences the feeds yield, one after the other, each feed
    starting in the world the one before left; [step] is the body of the
    loop over the feeds, run on an empty list. *)
Fixpoint batches (step : feed -> M (list event)) (cs : list feed)
    (w : world) : list (list event) :=
  match cs with
  | [] => []
  | c :: cs' =>
      match step c w with
      | (Returns evs, w') => evs :: batches step cs' w'
      | (Raises _, _) => []
      end
  end.

Definition service_batches (h : host) (self : self_t) (w : world)
  : list (list event) :=
  batches (calendar_step h self []) (self_calendars self)
          (after (logger_info Starting w)).

(** The list the service serialises. *)
Definition merged (h : host) (self : self_t) (w : world) : list event :=
  Common.sort_by_start (List.concat (service_batches h self w)).

(** The zone both programs look up when they start
    ([pytz.timezone(os.getenv('TIMEZONE', 'Europe/London'))]), and the
    feeds of the script, read from the environment. *)
Definition script_zone (h : host) : outcome timezone :=
  pytz_timezone h (getenv h "TIMEZONE" "Europe/London").

Definition configured_urls (h : host) : list string :=
  Str.split_comma (getenv h "ICAL_URLS" EmptyString).

Definition configured_names (h : host) : list string :=
  Str.split_comma (getenv h "CALENDAR_NAMES" EmptyString).

Definition script_feeds (h : host) : list feed :=
  Common.pair_up 0 (configured_urls h) (configured_names h).

Definition script_batches (h : host) (zone : timezone) (w : world)
  : list (list event) :=
  batches (ParseCalendar.calendar_step h zone []) (script_feeds h) w.

Definition script_merged (h : host) (zone : timezone) (w : world)
  : list event :=
  Common.sort_by_start (List.concat (script_batches h zone w)).

(** A loop body that returns, and adds to the list it is given what it adds
    to the empty list. *)
Definition appends (step : list event -> feed -> M (list event)) : Prop :=
  forall acc c w, exists evs w',
    step [] c w = (Returns evs, w')
    /\ step acc c w = (Returns (acc ++ evs), w').

(** ** A disk that fails *)

(** The small network on a disk where the writing fails when one character
    has been written, and a world in which an earlier pass has left the
    empty array in the output file. *)
Definition failing_disk_host : host :=
  fixture (fun _ => 0) (fun n => mkwall 2024 6 16 8 0 0 + Z.of_nat n)
          demo_net demo_parser (WriteFails 1).

Definition earlier_output : world :=
  World [] (fun p => if String.eqb p "./calendar.json" then Some "[]"%string
                     else None)
        [] [] 0.

(** ** Configuration *)

(** A host whose environment holds the two lists and nothing else. *)
Definition env_host (urls names : string) : host :=
  Host (fun k => if String.eqb k "ICAL_URLS" then Some urls
                 else if String.eqb k "CALENDAR_NAMES" then Some names
                 else None)
       tzdata no_net no_parser (fun _ => 0) (fun _ => 0)
       NoFault.

(** The descriptor of a URL entry and the name at its position. *)
Definition descriptor (p : string * string) : feed :=
  Feed (Str.strip (snd p)) (Str.strip (fst p)).

(** The URL entry is not blank. *)
Definition has_url (p : string * string) : bool :=
  Str.truthy (Str.strip (fst p)).

(** The relation that holds between any two worlds. *)
Definition any_two (w1 w2 : world) : Prop := True.

(** Every reading of the clock of [h] falls on the date [d] of the zone. *)
Definition always_on (h : host) (zone : timezone) (d : date) : Prop :=
  forall n, today_at zone (clock h n) = d.

(** The small network on a clock that stands at 08:00 UTC of 2024-06-16, and
    a clock that stands at 20:00 UTC of that day. *)
Definition morning_host : host :=
  fixture (fun _ => 0) (fun _ => mkwall 2024 6 16 8 0 0)
          demo_net demo_parser NoFault.

Definition evening : nat -> Z := fun _ => mkwall 2024 6 16 20 0 0.

(* ================================================================== *)
(** * Further vocabulary: what a feed and a pass come to *)

(** The world after one more reading of the clock. *)
Definition ticked (w : world) : world :=
  World (log w) (files w) (stdout w) (stderr w) (S (ticks w)).

(** The feed gets as far as a parsed calendar: its fetch returns bytes and
    the bytes parse. *)
Definition parsed (h : host) (c : feed) : option (list component) :=
  match urlopen h (feed_url c) with
  | Returns (String a d) =>
      match from_ical h (String a d) with
      | Returns cal => Some cal
      | Raises _ => None
      end
  | _ => None
  end.

(** The events of one feed when the clock has been read [n] times. *)
Definition feed_events (h : host) (self : self_t) (c : feed) (n : nat)
  : list event :=
  match parsed h c with
  | Some cal =>
      walk_events h self (today_at (self_timezone self) (clock h n))
                  (feed_name c) cal
  | None => []
  end.

(** The events of the feeds, in order, the clock being read once for each
    feed that gets as far as a parsed calendar. *)
Fixpoint pass_events (h : host) (self : self_t) (cs : list feed) (n : nat)
  : list event :=
  match cs with
  | [] => []
  | c :: cs' =>
      feed_events h self c n
        ++ pass_events h self cs'
             (match parsed h c with Some _ => S n | None => n end)
  end.

(** The lines [_parse_calendar_events] logs for the events it returns. *)
Definition found_lines (calendar_name : string) (events : list event)
  : list (level * message) :=
  map (fun e => (INFO, Found (summary e) (start e) calendar_name)) events.

(** The count a name has in [calendar_counts]; 0 when it is not a key. *)
Fixpoint count_of (cal_name : string) (counts : list (string * nat)) : nat :=
  match counts with
  | [] => 0
  | (k, n) :: rest =>
      if String.eqb k cal_name then n else count_of cal_name rest
  end.

(** The events of one source. *)
Definition from_source (cal_name : string) (e : event) : bool :=
  String.eqb (calendarSource e) cal_name.

(** ** The script, component by component *)









(** The warnings of a walk: one for each event component whose reading
    raises. *)
Definition walk_warnings (h : host) (self : self_t) (target : date)
    (cal : list component) : list (level * message) :=
  flat_map (fun c => if reading_raises h self c target
                     then [dropped_warning] else [])
           (filter is_vevent cal).

(** The number of feeds of a list that get as far as a parsed calendar. *)
Definition parsed_count (h : host) (cs : list feed) : nat :=
  List.length (filter (fun c => match parsed h c with
                                | Some _ => true
                                | None => false
                                end) cs).

(** The event of feed A at 10:00, as the service records it. *)
Definition event_at_10 : event :=
  Event "Untitled Event" "2024-06-16T10:00:00+01:00"
        "2024-06-16T10:30:00+01:00" EmptyString EmptyString "A".




(** The instant [astimezone] takes a datetime to denote on host [h]. *)
Definition instant_of (h : host) (t : datetime) : Z :=
  instant (wall t) (match tzinfo t with
                    | Some off => off
                    | None => local_utcoffset h (wall t)
                    end).

(* ================================================================== *)
(** * Time normalisation *)

Section TimeNormalizer.

Variables (h : host) (self : self_t).

Let tz := self_timezone self.

(** A [datetime] always has [astimezone], so the branch of
    [_get_event_date] that replaces the tzinfo of a naive value by UTC is
    never taken: the comparison date of any datetime is the date of
    [astimezone]. *)
Lemma get_event_date_datetime (t : datetime) :
  _get_event_date h self (DT t)
  = date_of (astimezone (local_utcoffset h) t tz).
Proof. reflexivity. Qed.

(** A naive value is read on the host's local clock. *)
Lemma get_event_date_naive (w : Z) :
  _get_event_date h self (DT (DateTime w None))
  = date_of (fromutc tz (w - local_utcoffset h w)).
Proof. reflexivity. Qed.

Lemma format_datetime_naive (w : Z) :
  _format_datetime h self (DT (DateTime w None))
  = isoformat (fromutc tz (w - local_utcoffset h w)).
Proof. reflexivity. Qed.

(** An aware value is converted by offset arithmetic. *)
Lemma get_event_date_aware (w off : Z) :
  _get_event_date h self (DT (DateTime w (Some off)))
  = date_of (fromutc tz (w - off)).
Proof. reflexivity. Qed.

Lemma format_datetime_aware (w off : Z) :
  _format_datetime h self (DT (DateTime w (Some off)))
  = isoformat (fromutc tz (w - off)).
Proof. reflexivity. Qed.

(** On a host that keeps UTC, and only there for every value, a naive
    value is read as UTC. *)
Lemma naive_is_utc_on_utc_host (w : Z) :
  (forall x, local_utcoffset h x = 0) ->
  _get_event_date h self (DT (DateTime w None)) = date_of (fromutc tz w)
  /\ _format_datetime h self (DT (DateTime w None))
     = isoformat (fromutc tz w).
Proof.
  intros Hutc. rewrite get_event_date_naive, format_datetime_naive.
  rewrite Hutc, Z.sub_0_r. split; reflexivity.
Qed.

(** A date is compared as it is. *)
Lemma get_event_date_date (d : date) : _get_event_date h self (D d) = d.
Proof. reflexivity. Qed.

(** Every string the service formats from a datetime ends with the offset
    the target zone has at that instant. *)
Lemma format_datetime_offset (t : datetime) :
  let utc := instant (wall t)
               (match tzinfo t with
                | Some off => off
                | None => local_utcoffset h (wall t)
                end) in
  let off := utcoffset_at tz utc in
  _format_datetime h self (DT t)
  = (iso_date ((utc + off) / 86400) ++ "T"
       ++ iso_time ((utc + off) mod 86400) ++ iso_offset off)%string.
Proof. reflexivity. Qed.

(** A date is formatted as the midnight that starts it in the target
    zone, with the offset [localize] gives that midnight. *)
Lemma format_datetime_date (d : date) :
  _format_datetime h self (D d)
  = (date_isoformat d ++ "T00:00:00"
       ++ iso_offset (localize_offset tz (days d * 86400)))%string.
Proof.
  unfold _format_datetime, isoformat, localize, combine_min, date_isoformat.
  cbn [wall tzinfo].
  rewrite Z.div_mul by discriminate. rewrite Z.mod_mul by discriminate.
  reflexivity.
Qed.

End TimeNormalizer.

(** The example of the specification, on a host that keeps UTC. *)
Example naive_example_on_utc_host :
  _get_event_date utc_host london_self (DT (naive 2024 6 15 23 30 0))
  = mkdate 2024 6 16
  /\ _format_datetime utc_host london_self (DT (naive 2024 6 15 23 30 0))
     = "2024-06-16T00:30:00+01:00"%string.
Proof. split; vm_compute; reflexivity. Qed.

(** C1. The claim: a naive start or end is taken as UTC and converted to the
    target zone, so naive 2024-06-15T23:30:00 gives, for Europe/London, the
    date 2024-06-16 and the string 2024-06-16T00:30:00+01:00. The service
    instead reads a naive value on the local clock of the host: on a host
    that keeps Europe/London time the date is 2024-06-15 and the string is
    2024-06-15T23:30:00+01:00. *)
Theorem C1_naive_value_read_on_host_clock :
  let dt := DT (naive 2024 6 15 23 30 0) in
  _get_event_date london_host london_self dt = mkdate 2024 6 15
  /\ _format_datetime london_host london_self dt
     = "2024-06-15T23:30:00+01:00"%string
  /\ _get_event_date london_host london_self dt <> mkdate 2024 6 16
  /\ _format_datetime london_host london_self dt
     <> "2024-06-16T00:30:00+01:00"%string.
Proof.
  cbv zeta. repeat split; try (vm_compute; reflexivity);
    vm_compute; discriminate.
Qed.

(* ================================================================== *)
(** * Running computations *)

Lemma logged_nil (w : world) : logged w [] = w.
Proof. destruct w; unfold logged; cbn. now rewrite app_nil_r. Qed.

Lemma logged_logged (w : world) (l1 l2 : list (level * message)) :
  logged (logged w l1) l2 = logged w (l1 ++ l2).
Proof. unfold logged; cbn. now rewrite app_assoc. Qed.

Lemma emit_run (lv : level) (m : message) (w : world) :
  emit lv m w = (Returns tt, logged w [(lv, m)]).
Proof. reflexivity. Qed.

Lemma for_loop_app {A S} (body : S -> A -> M S) (l1 l2 : list A) (s : S)
    (w : world) :
  for_loop body (l1 ++ l2) s w
  = bind (for_loop body l1 s) (for_loop body l2) w.
Proof.
  revert s w. induction l1 as [|a l1 IH]; intros s w; cbn [for_loop app].
  - reflexivity.
  - unfold bind. destruct (body s a w) as [[s'|e] w'].
    + exact (IH s' w').
    + reflexivity.
Qed.

(** Unfolding of the monad operations. *)
Ltac run :=
  unfold logger_info, logger_warning, logger_error, try_except, bind, ret,
    lift, emit, eprint, print, result, after in *;
  cbn [fst snd] in *.

(** ** The rules of [related] *)
Section Related.

Variable R : world -> world -> Prop.

Hypothesis R_emit_l :
  forall w1 w2 lv m, R w1 w2 -> R (after (emit lv m w1)) w2.
Hypothesis R_emit_r :
  forall w1 w2 lv m, R w1 w2 -> R w1 (after (emit lv m w2)).
Hypothesis R_eprint :
  forall w1 w2 m1 m2, R w1 w2 ->
    R (after (eprint m1 w1)) (after (eprint m2 w2)).
Hypothesis R_store :
  forall w1 w2 p t, R w1 w2 -> R (store p t w1) (store p t w2).

Lemma related_ret {A} (a : A) : related R (ret a) (ret a).
Proof. intros w1 w2 H. split; [reflexivity | exact H]. Qed.

Lemma related_lift {A} (o : outcome A) : related R (lift o) (lift o).
Proof. intros w1 w2 H. split; [reflexivity | exact H]. Qed.

Lemma related_bind {A B} (m1 m2 : M A) (k1 k2 : A -> M B) :
  related R m1 m2 -> (forall a, related R (k1 a) (k2 a)) ->
  related R (bind m1 k1) (bind m2 k2).
Proof.
  intros Hm Hk w1 w2 H. destruct (Hm w1 w2 H) as [Hr Hw].
  unfold bind, result, after in *.
  destruct (m1 w1) as [[a1|e1] w1'], (m2 w2) as [[a2|e2] w2'];
    cbn [fst snd] in *; try discriminate.
  - injection Hr as ->. apply Hk, Hw.
  - injection Hr as ->. split; [reflexivity | exact Hw].
Qed.

Lemma related_try {A} (m1 m2 : M A) (k1 k2 : exn -> M A) :
  related R m1 m2 -> (forall e, related R (k1 e) (k2 e)) ->
  related R (try_except m1 k1) (try_except m2 k2).
Proof.
  intros Hm Hk w1 w2 H. destruct (Hm w1 w2 H) as [Hr Hw].
  unfold try_except, result, after in *.
  destruct (m1 w1) as [[a1|e1] w1'], (m2 w2) as [[a2|e2] w2'];
    cbn [fst snd] in *; try discriminate.
  - split; [exact Hr | exact Hw].
  - injection Hr as ->. apply Hk, Hw.
Qed.

Lemma related_emit (lv1 lv2 : level) (m1 m2 : message) :
  related R (emit lv1 m1) (emit lv2 m2).
Proof.
  intros w1 w2 H. split; [reflexivity|].
  apply R_emit_l. apply (R_emit_r w1 w2 lv2 m2) in H. exact H.
Qed.

Lemma related_eprint (m1 m2 : message) :
  related R (eprint m1) (eprint m2).
Proof. intros w1 w2 H. split; [reflexivity | now apply R_eprint]. Qed.

Lemma related_for_loop {A S} (b1 b2 : S -> A -> M S) (l : list A) :
  (forall s a, related R (b1 s a) (b2 s a)) ->
  forall s, related R (for_loop b1 l s) (for_loop b2 l s).
Proof.
  intros Hb. induction l as [|a l IH]; intros s; cbn [for_loop].
  - apply related_ret.
  - apply related_bind; [apply Hb | exact IH].
Qed.

Lemma related_write (h1 h2 : host) (p t : string) :
  disk_fault h1 = disk_fault h2 ->
  related R (write_text h1 p t) (write_text h2 p t).
Proof.
  intros Hf w1 w2 H. unfold write_text, result, after. rewrite Hf.
  destruct (disk_fault h2); cbn [fst snd]; split; auto.
Qed.

(** *** Two hosts that differ in what the service cannot observe *)

Variables (h1 h2 : host) (s1 s2 : self_t).

Hypothesis same_zone : self_timezone s1 = self_timezone s2.
Hypothesis same_local :
  forall x, local_utcoffset h1 x = local_utcoffset h2 x.
Hypothesis same_parser : forall d, from_ical h1 d = from_ical h2 d.
Hypothesis same_net :
  forall url, urlopen h1 url = urlopen h2 url
              \/ (skipped (urlopen h1 url) /\ skipped (urlopen h2 url)).
Hypothesis same_today :
  related R (today h1 (self_timezone s1)) (today h2 (self_timezone s2)).

Lemma get_event_date_sim (dt : dt_value) :
  _get_event_date h1 s1 dt = _get_event_date h2 s2 dt.
Proof.
  destruct dt as [d|[w [off|]]];
    unfold _get_event_date, _format_datetime, astimezone;
    cbn [hasattr_astimezone wall tzinfo];
    rewrite ?same_zone, ?same_local; reflexivity.
Qed.

Lemma format_datetime_sim (dt : dt_value) :
  _format_datetime h1 s1 dt = _format_datetime h2 s2 dt.
Proof.
  destruct dt as [d|[w [off|]]];
    unfold _get_event_date, _format_datetime, astimezone;
    cbn [hasattr_astimezone wall tzinfo];
    rewrite ?same_zone, ?same_local; reflexivity.
Qed.

Ltac rel :=
  repeat first
    [ apply related_ret | apply related_lift | apply related_emit
    | apply related_bind | apply related_try | apply related_for_loop
    | progress rewrite ?get_event_date_sim, ?format_datetime_sim
    | match goal with
      | |- forall _, _ => intro
      | |- related _ (if ?b then _ else _) _ => destruct b
      | |- related _ (match ?x with _ => _ end) _ => destruct x
      | |- related _ (let '(_, _) := ?x in _) _ => destruct x
      end ].

Lemma process_event_sim (c : component) (target : date) (n : string) :
  related R (_process_event h1 s1 c target n)
            (_process_event h2 s2 c target n).
Proof.
  unfold _process_event, logger_warning.
  destruct (dtstart c) as [[dt|l]|]; cbn [truthy negb dt_of]; rel.
Qed.

Lemma walk_step_sim (today : date) (n : string) (st : list event * nat)
    (c : component) :
  related R (CalendarProcessor.walk_step h1 s1 today n st c)
            (CalendarProcessor.walk_step h2 s2 today n st c).
Proof.
  unfold CalendarProcessor.walk_step. destruct st as [events total].
  destruct (String.eqb (name c) "VEVENT"); [|rel].
  apply related_bind; [apply process_event_sim | rel].
Qed.

Lemma parse_calendar_events_sim (data n : string) :
  related R (_parse_calendar_events h1 s1 data n)
            (_parse_calendar_events h2 s2 data n).
Proof.
  unfold _parse_calendar_events, logger_info, logger_error.
  rewrite same_parser.
  apply related_try; [|rel]. apply related_bind; [rel|]. intros cal.
  apply related_bind; [exact same_today|]. intros today.
  apply related_bind; [rel|]. intros _.
  apply related_bind.
  { apply related_for_loop. intros st c. apply walk_step_sim. }
  intros [events total]. rel.
Qed.

Lemma fetch_skipped (h : host) (url : string) (w : world) :
  skipped (urlopen h url) ->
  exists r l, _fetch_ical_data h url w = (Returns r, logged w l)
              /\ (r = None \/ r = Some EmptyString).
Proof.
  intros [Hs|[e Hs]]; unfold _fetch_ical_data; run; rewrite Hs;
    cbn [fst snd].
  - exists (Some EmptyString), [(INFO, Fetching url)]. split; auto.
  - exists None, [(INFO, Fetching url); (ERROR, FetchError url e)].
    split; auto. unfold logged; cbn. now rewrite <- app_assoc.
Qed.

Lemma R_logged_l (w1 w2 : world) (l : list (level * message)) :
  R w1 w2 -> R (logged w1 l) w2.
Proof.
  revert w1. induction l as [|[lv m] l IH]; intros w1 H.
  - now rewrite logged_nil.
  - change ((lv, m) :: l) with ([(lv, m)] ++ l).
    rewrite <- logged_logged. apply IH. now apply (R_emit_l w1 w2 lv m).
Qed.

Lemma R_logged_r (w1 w2 : world) (l : list (level * message)) :
  R w1 w2 -> R w1 (logged w2 l).
Proof.
  revert w2. induction l as [|[lv m] l IH]; intros w2 H.
  - now rewrite logged_nil.
  - change ((lv, m) :: l) with ([(lv, m)] ++ l).
    rewrite <- logged_logged. apply IH. now apply (R_emit_r w1 w2 lv m).
Qed.

Lemma calendar_step_sim (acc : list event) (c : feed) :
  related R (calendar_step h1 s1 acc c) (calendar_step h2 s2 acc c).
Proof.
  destruct (same_net (feed_url c)) as [Heq|[Hs1 Hs2]].
  - unfold calendar_step, _fetch_ical_data, logger_info, logger_error.
    rewrite Heq. apply related_try; [|rel].
    apply related_bind; [rel|]. intros [[|a d]|]; [rel| |rel].
    apply related_bind; [apply parse_calendar_events_sim | rel].
  - intros w1 w2 H.
    destruct (fetch_skipped h1 (feed_url c) w1 Hs1) as (r1 & l1 & E1 & D1).
    destruct (fetch_skipped h2 (feed_url c) w2 Hs2) as (r2 & l2 & E2 & D2).
    unfold calendar_step, try_except, bind, result, after.
    rewrite E1, E2.
    destruct D1 as [-> | ->], D2 as [-> | ->]; cbn [fst snd];
      (split; [reflexivity | now apply R_logged_l, R_logged_r]).
Qed.

Lemma gather_sim (cs : list feed) (acc : list event) :
  related R (for_loop (calendar_step h1 s1) cs acc)
            (for_loop (calendar_step h2 s2) cs acc).
Proof. apply related_for_loop. intros s a. apply calendar_step_sim. Qed.

(** *** The script on the two hosts *)

Variable zone : timezone.

Hypothesis same_net_exact : forall url, urlopen h1 url = urlopen h2 url.
Hypothesis same_today_zone : related R (today h1 zone) (today h2 zone).

Lemma astimezone_sim (t : datetime) (z : timezone) :
  astimezone (local_utcoffset h1) t z = astimezone (local_utcoffset h2) t z.
Proof.
  destruct t as [x [off|]]; unfold astimezone; cbn [wall tzinfo];
    rewrite ?same_local; reflexivity.
Qed.

Lemma format_value_sim (dt : dt_value) :
  ParseCalendar.format_value h1 zone dt
  = ParseCalendar.format_value h2 zone dt.
Proof.
  destruct dt as [d|t]; cbn [ParseCalendar.format_value];
    rewrite ?astimezone_sim; reflexivity.
Qed.

Ltac rel_script :=
  repeat first
    [ apply related_ret | apply related_lift | apply related_eprint
    | apply related_bind | apply related_try | apply related_for_loop
    | progress rewrite ?astimezone_sim, ?format_value_sim
    | match goal with
      | |- forall _, _ => intro
      | |- related _ (if ?b then _ else _) _ => destruct b
      | |- related _ (match ?x with _ => _ end) _ => destruct x
      end ].

Lemma script_walk_step_sim (today : date) (n : string) (evs : list event)
    (c : component) :
  related R (ParseCalendar.walk_step h1 zone today n evs c)
            (ParseCalendar.walk_step h2 zone today n evs c).
Proof.
  unfold ParseCalendar.walk_step.
  destruct (String.eqb (name c) "VEVENT"); [|rel_script].
  destruct (negb (truthy (dtstart c))); [rel_script|].
  apply related_bind; [rel_script|].
  intros [d|t]; cbv iota; rewrite ?astimezone_sim, ?format_value_sim;
    rel_script.
Qed.

Lemma script_parse_sim (url n : string) :
  related R (ParseCalendar.parse_ical_url h1 url n zone)
            (ParseCalendar.parse_ical_url h2 url n zone).
Proof.
  unfold ParseCalendar.parse_ical_url. rewrite same_net_exact.
  apply related_try; [|rel_script].
  apply related_bind; [rel_script|]. intros data. rewrite same_parser.
  apply related_bind; [rel_script|]. intros cal.
  apply related_bind; [exact same_today_zone|]. intros today.
  apply related_for_loop. intros evs c. apply script_walk_step_sim.
Qed.

Lemma script_gather_sim (cs : list feed) (acc : list event) :
  related R (for_loop (ParseCalendar.calendar_step h1 zone) cs acc)
            (for_loop (ParseCalendar.calendar_step h2 zone) cs acc).
Proof.
  apply related_for_loop. intros a c. unfold ParseCalendar.calendar_step.
  apply related_bind; [apply related_eprint|]. intros _.
  apply related_bind; [apply script_parse_sim|]. intros evs.
  apply related_bind; [apply related_eprint|]. intros _.
  apply related_ret.
Qed.

Hypothesis same_path : self_output_file s1 = self_output_file s2.
Hypothesis same_fault : disk_fault h1 = disk_fault h2.

Lemma sort_and_save_sim (all_events : list event) :
  related R (sort_and_save h1 s1 all_events)
            (sort_and_save h2 s2 all_events).
Proof.
  unfold sort_and_save, logger_info, logger_error. rewrite same_path.
  apply related_try; [|rel].
  apply related_bind; [now apply related_write|]. intros _.
  apply related_bind; [rel|]. intros _.
  apply related_for_loop. intros _ [cal_name count]. rel.
Qed.

(** Two services whose loops are related write related files. *)
Lemma process_calendars_sim :
  related R (for_loop (calendar_step h1 s1) (self_calendars s1) [])
            (for_loop (calendar_step h2 s2) (self_calendars s2) []) ->
  related R (process_calendars h1 s1) (process_calendars h2 s2).
Proof.
  intros Hloop.
  change (related R
            (bind (logger_info Starting)
               (fun _ => bind (for_loop (calendar_step h1 s1)
                                        (self_calendars s1) [])
                           (sort_and_save h1 s1)))
            (bind (logger_info Starting)
               (fun _ => bind (for_loop (calendar_step h2 s2)
                                        (self_calendars s2) [])
                           (sort_and_save h2 s2)))).
  apply related_bind; [unfold logger_info; rel|]. intros _.
  apply related_bind; [exact Hloop|]. apply sort_and_save_sim.
Qed.

(** A feed whose step only logs can be left out of the list. *)
Lemma skip_feed_sim (bad : feed) (pre post : list feed)
    (acc : list event) :
  (forall a w, exists l,
      calendar_step h1 s1 a bad w = (Returns a, logged w l)) ->
  related R (for_loop (calendar_step h1 s1) (pre ++ bad :: post) acc)
            (for_loop (calendar_step h2 s2) (pre ++ post) acc).
Proof.
  intros Hbad w1 w2 H. rewrite !for_loop_app.
  revert w1 w2 H. apply related_bind; [apply gather_sim|].
  intros a w1 w2 H. cbn [for_loop].
  destruct (Hbad a w1) as [l Hl].
  assert (E : bind (calendar_step h1 s1 a bad)
                (for_loop (calendar_step h1 s1) post) w1
              = for_loop (calendar_step h1 s1) post a (logged w1 l))
    by (unfold bind; now rewrite Hl).
  rewrite E. apply gather_sim. now apply R_logged_l.
Qed.

End Related.

(** ** The two relations *)

Lemma same_disk_and_clock_refl (w : world) : same_disk_and_clock w w.
Proof. repeat split. Qed.

Lemma store_files (p t : string) (w1 w2 : world) :
  files w1 = files w2 -> files (store p t w1) = files (store p t w2).
Proof. intros H. unfold store; cbn. now rewrite H. Qed.

(** On one clock, reading it the same number of times gives the same
    date. *)
Lemma today_same_clock (h1 h2 : host) (tz : timezone) :
  (forall n, clock h1 n = clock h2 n) ->
  related same_disk_and_clock (today h1 tz) (today h2 tz).
Proof.
  intros Hc w1 w2 (Hf & Ho & Ht). unfold today, result, after; cbn.
  rewrite Ht, Hc. repeat split; auto.
Qed.

(* ================================================================== *)
(** * Event normalisation *)

Lemma date_eqb_eq (a b : date) : date_eqb a b = true <-> a = b.
Proof.
  destruct a as [x], b as [y]. unfold date_eqb; cbn. rewrite Z.eqb_eq.
  split; [intros -> | intros [= ->]]; reflexivity.
Qed.

Lemma date_eqb_refl (a : date) : date_eqb a a = true.
Proof. now apply date_eqb_eq. Qed.

Lemma unreadable_cases (p : option prop) :
  unreadable p = false ->
  truthy p = false \/ exists dt, p = Some (vDDDTypes dt).
Proof.
  destruct p as [[dt|[|x l]]|]; cbn; intros H; try discriminate; eauto.
Qed.

Section EventNormalizer.

Variables (h : host) (self : self_t).
Variables (c : component) (target : date) (calendar_name : string).
Variable w : world.

Let run_event := _process_event h self c target calendar_name w.

(** No start: absent, silently. *)
Lemma process_event_no_start :
  truthy (dtstart c) = false -> run_event = (Returns None, w).
Proof.
  intros H. unfold run_event, _process_event. run. rewrite H. reflexivity.
Qed.

(** A start that cannot be read: absent, with a warning. *)
Lemma process_event_bad_start :
  unreadable (dtstart c) = true ->
  run_event = (Returns None, logged w [dropped_warning]).
Proof.
  intros H. unfold run_event, _process_event. run.
  destruct (dtstart c) as [[dt|[|x l]]|]; try discriminate H.
  reflexivity.
Qed.

Variable dt : dt_value.
Hypothesis start_is : dtstart c = Some (vDDDTypes dt).

(** Another date: absent, silently. *)
Lemma process_event_other_date :
  _get_event_date h self dt <> target -> run_event = (Returns None, w).
Proof.
  intros H. unfold run_event, _process_event. run. rewrite start_is.
  cbn [truthy negb dt_of].
  destruct (date_eqb (_get_event_date h self dt) target) eqn:E.
  - apply date_eqb_eq in E. contradiction.
  - reflexivity.
Qed.

Hypothesis on_target : _get_event_date h self dt = target.

(** The target date but an end that cannot be read: absent, with a
    warning. *)
Lemma process_event_bad_end :
  unreadable (dtend c) = true ->
  run_event = (Returns None, logged w [dropped_warning]).
Proof.
  intros H. unfold run_event, _process_event. run. rewrite start_is.
  cbn [truthy negb dt_of]. rewrite on_target, date_eqb_refl. cbn [negb].
  destruct (dtend c) as [[edt|[|x l]]|]; try discriminate H.
  reflexivity.
Qed.

(** The target date and a readable or absent end: the record, silently. *)
Lemma process_event_included :
  unreadable (dtend c) = false ->
  run_event = (Returns (Some (event_record h self c dt calendar_name)), w).
Proof.
  intros H. unfold run_event, _process_event, event_record, default_end.
  run. rewrite start_is.
  cbn [truthy negb dt_of]. rewrite on_target, date_eqb_refl. cbn [negb].
  destruct (dtend c) as [[edt|[|x l]]|]; try discriminate H;
    cbn [truthy]; destruct (hasattr_astimezone dt); reflexivity.
Qed.

End EventNormalizer.

(** The service never raises from [_process_event], and only logs. *)
Lemma process_event_returns (h : host) (self : self_t) (c : component)
    (target : date) (n : string) (w : world) :
  exists r l, _process_event h self c target n w = (Returns r, logged w l)
              /\ (l = [] \/ l = [dropped_warning]).
Proof.
  destruct (unreadable (dtstart c)) eqn:Us.
  - exists None, [dropped_warning]. split; [|now right].
    now apply process_event_bad_start.
  - destruct (unreadable_cases _ Us) as [Hf|[dt Hs]].
    + exists None, []. rewrite logged_nil. split; [|now left].
      now apply process_event_no_start.
    + destruct (date_eqb (_get_event_date h self dt) target) eqn:E.
      * apply date_eqb_eq in E. destruct (unreadable (dtend c)) eqn:Ue.
        -- exists None, [dropped_warning]. split; [|now right].
           now apply process_event_bad_end with (dt := dt).
        -- eexists _, []. rewrite logged_nil. split; [|now left].
           exact (process_event_included h self c target n w dt Hs E Ue).
      * exists None, []. rewrite logged_nil. split; [|now left].
        apply process_event_other_date with (dt := dt); [exact Hs|].
        intros D. apply date_eqb_eq in D. congruence.
Qed.






(** ** The default end *)

Section DefaultEnd.

Variables (h : host) (self : self_t).
Variables (c : component) (target : date) (calendar_name : string).
Variable w : world.

Let tz := self_timezone self.

(** Thirty minutes on the wall clock of an aware value are thirty minutes
    of time. *)
Lemma astimezone_plus_30_minutes (x off : Z) :
  astimezone (local_utcoffset h) (add_seconds (DateTime x (Some off)) 1800)
             tz
  = fromutc tz (instant x off + 1800).
Proof.
  unfold astimezone, add_seconds, instant; cbn [wall tzinfo].
  f_equal. lia.
Qed.

(** In the service, an aware start with no end ends thirty minutes after
    the instant of its start, in the target zone. *)
Lemma service_default_end_aware (x off : Z) :
  dtstart c = Some (vDDDTypes (DT (DateTime x (Some off)))) ->
  _get_event_date h self (DT (DateTime x (Some off))) = target ->
  truthy (dtend c) = false ->
  exists e,
    _process_event h self c target calendar_name w = (Returns (Some e), w)
    /\ start e = isoformat (fromutc tz (instant x off))
    /\ end_ e = isoformat (fromutc tz (instant x off + 1800)).
Proof.
  intros Hs Hd He. eexists. split.
  - apply process_event_included with (dt := DT (DateTime x (Some off)));
      auto.
    unfold unreadable. now rewrite He.
  - unfold event_record, default_end. cbn [start end_].
    destruct (dtend c) as [[edt|[|y l]]|]; try discriminate He;
      (split; [reflexivity|]);
      cbn [hasattr_astimezone plus_30_minutes _format_datetime];
      now rewrite astimezone_plus_30_minutes.
Qed.

(** In the service, a date-only start with no end ends as it starts. *)
Lemma service_default_end_date (d : date) :
  dtstart c = Some (vDDDTypes (D d)) ->
  d = target ->
  truthy (dtend c) = false ->
  exists e,
    _process_event h self c target calendar_name w = (Returns (Some e), w)
    /\ end_ e = start e.
Proof.
  intros Hs Hd He. eexists. split.
  - apply process_event_included with (dt := D d); auto.
    unfold unreadable. now rewrite He.
  - unfold event_record, default_end. cbn [start end_].
    destruct (dtend c) as [[edt|[|y l]]|]; try discriminate He;
      reflexivity.
Qed.

(** The script prints a date as the bare date. *)
Lemma script_date_is_bare (zone : timezone) (d : date) :
  ParseCalendar.format_value h zone (D d) = date_isoformat d.
Proof. reflexivity. Qed.

End DefaultEnd.

(** C3. The claim: a DateTime start with no end gets the end thirty minutes
    after the start. The service does that for the start
    2024-06-16T09:00:00+01:00; the script [parse_calendar.py], given the
    same component, gives the end the string of the start. *)
Theorem C3_script_end_repeats_start :
  let h := one_event_host nine_o_clock in
  result (_parse_calendar_events h london_self "BEGIN:VCALENDAR" "Work"
                                 empty_world)
  = Returns [Event "Untitled Event" "2024-06-16T09:00:00+01:00"
                   "2024-06-16T09:30:00+01:00" EmptyString EmptyString "Work"]
  /\ result (ParseCalendar.parse_ical_url h "http://feed" "Work"
                                          Europe_London empty_world)
     = Returns [Event "Untitled Event" "2024-06-16T09:00:00+01:00"
                      "2024-06-16T09:00:00+01:00" EmptyString EmptyString
                      "Work"].
Proof. cbv zeta. split; vm_compute; reflexivity. Qed.

(** C4. The claim: a date-only value is emitted as the midnight of that date
    in the target zone with the zone's offset, and no emitted string is a
    bare date. The service does that for the date 2024-06-16; the script
    [parse_calendar.py], given the same component, emits the bare date
    as start and as end. *)
Theorem C4_script_emits_bare_date :
  let h := one_event_host all_day in
  result (_parse_calendar_events h london_self "BEGIN:VCALENDAR" "Work"
                                 empty_world)
  = Returns [Event "Untitled Event" "2024-06-16T00:00:00+01:00"
                   "2024-06-16T00:00:00+01:00" EmptyString EmptyString "Work"]
  /\ result (ParseCalendar.parse_ical_url h "http://feed" "Work"
                                          Europe_London empty_world)
     = Returns [Event "Untitled Event" "2024-06-16" "2024-06-16"
                      EmptyString EmptyString "Work"].
Proof. cbv zeta. split; vm_compute; reflexivity. Qed.

(* ================================================================== *)
(** * No exception leaves the service, and its log only grows *)

Section Total.

Lemma total_ret {A} (a : A) : total (ret a).
Proof. intros w. now exists a. Qed.

Lemma total_emit (lv : level) (m : message) : total (emit lv m).
Proof. intros w. now exists tt. Qed.

Lemma total_today (h : host) (tz : timezone) : total (today h tz).
Proof. intros w. eexists. reflexivity. Qed.

Lemma total_bind {A B} (m : M A) (k : A -> M B) :
  total m -> (forall a, total (k a)) -> total (bind m k).
Proof.
  intros Hm Hk w. destruct (Hm w) as [a Ha]. unfold bind, result in *.
  destruct (m w) as [[a'|e] w']; cbn [fst] in *; [|discriminate].
  apply Hk.
Qed.

Lemma total_try {A} (m : M A) (k : exn -> M A) :
  (forall e, total (k e)) -> total (try_except m k).
Proof.
  intros Hk w. unfold try_except, result.
  destruct (m w) as [[a|e] w']; cbn [fst].
  - now exists a.
  - apply Hk.
Qed.

Lemma total_for_loop {A S} (body : S -> A -> M S) (l : list A) :
  (forall s a, total (body s a)) -> forall s, total (for_loop body l s).
Proof.
  intros Hb. induction l as [|a l IH]; intros s; cbn [for_loop].
  - apply total_ret.
  - apply total_bind; [apply Hb | exact IH].
Qed.

End Total.

Ltac behaved_with known :=
  repeat first
    [ known
    | apply total_ret | apply total_emit | apply total_today
    | apply total_bind | apply total_try | apply total_for_loop
    | match goal with
      | |- forall _, _ => intro
      | |- total (if ?b then _ else _) => destruct b
      | |- total (match ?x with _ => _ end) => destruct x
      end ].

Ltac behaved := behaved_with fail.

(** ** What a computation keeps *)
Section Keeps.

Variable P : world -> world -> Prop.

Hypothesis P_refl : forall w, P w w.
Hypothesis P_trans : forall a b c, P a b -> P b c -> P a c.
Hypothesis P_emit : forall lv m w, P w (after (emit lv m w)).
Hypothesis P_today : forall h tz w, P w (after (today h tz w)).
Hypothesis P_eprint : forall m w, P w (after (eprint m w)).

Lemma keeps_ret {A} (a : A) : keeps P (ret a).
Proof. intros w. apply P_refl. Qed.

Lemma keeps_lift {A} (o : outcome A) : keeps P (lift o).
Proof. intros w. apply P_refl. Qed.

Lemma keeps_emit (lv : level) (m : message) : keeps P (emit lv m).
Proof. intros w. apply P_emit. Qed.

Lemma keeps_today (h : host) (tz : timezone) : keeps P (today h tz).
Proof. intros w. apply P_today. Qed.

Lemma keeps_bind {A B} (m : M A) (k : A -> M B) :
  keeps P m -> (forall a, keeps P (k a)) -> keeps P (bind m k).
Proof.
  intros Hm Hk w. specialize (Hm w). unfold bind, after in *.
  destruct (m w) as [[a|e] w']; cbn [snd] in *; [|exact Hm].
  eapply P_trans; [exact Hm | apply Hk].
Qed.

Lemma keeps_try {A} (m : M A) (k : exn -> M A) :
  keeps P m -> (forall e, keeps P (k e)) -> keeps P (try_except m k).
Proof.
  intros Hm Hk w. specialize (Hm w). unfold try_except, after in *.
  destruct (m w) as [[a|e] w']; cbn [snd] in *; [exact Hm|].
  eapply P_trans; [exact Hm | apply Hk].
Qed.

Lemma keeps_for_loop {A S} (body : S -> A -> M S) (l : list A) :
  (forall s a, keeps P (body s a)) -> forall s, keeps P (for_loop body l s).
Proof.
  intros Hb. induction l as [|a l IH]; intros s; cbn [for_loop].
  - apply keeps_ret.
  - apply keeps_bind; [apply Hb | exact IH].
Qed.

Ltac kept_with known :=
  repeat first
    [ known
    | apply keeps_ret | apply keeps_lift | apply keeps_emit
    | apply keeps_today | apply keeps_bind | apply keeps_try
    | apply keeps_for_loop
    | match goal with
      | |- forall _, _ => intro
      | |- keeps _ (if ?b then _ else _) => destruct b
      | |- keeps _ (match ?x with _ => _ end) => destruct x
      end ].

Variables (h : host) (self : self_t).

Lemma process_event_keeps (c : component) (t : date) (n : string) :
  keeps P (_process_event h self c t n).
Proof. unfold _process_event, logger_warning. kept_with fail. Qed.

Lemma parse_calendar_events_keeps (data n : string) :
  keeps P (_parse_calendar_events h self data n).
Proof.
  unfold _parse_calendar_events, logger_error, logger_info,
    CalendarProcessor.walk_step.
  kept_with ltac:(apply process_event_keeps).
Qed.

Lemma fetch_keeps (url : string) : keeps P (_fetch_ical_data h url).
Proof.
  unfold _fetch_ical_data, logger_error, logger_info. kept_with fail.
Qed.

Lemma calendar_step_keeps (acc : list event) (c : feed) :
  keeps P (calendar_step h self acc c).
Proof.
  unfold calendar_step, logger_error.
  kept_with
    ltac:(first [apply fetch_keeps | apply parse_calendar_events_keeps]).
Qed.

Lemma gather_keeps (cs : list feed) (acc : list event) :
  keeps P (for_loop (calendar_step h self) cs acc).
Proof. apply keeps_for_loop. intros s a. apply calendar_step_keeps. Qed.

(** The script, up to its printing. *)
Lemma keeps_eprint (m : message) : keeps P (eprint m).
Proof. intros w. apply P_eprint. Qed.

Lemma script_parse_keeps (url n : string) (zone : timezone) :
  keeps P (ParseCalendar.parse_ical_url h url n zone).
Proof.
  unfold ParseCalendar.parse_ical_url, ParseCalendar.walk_step.
  kept_with ltac:(apply keeps_eprint).
Qed.

Lemma script_step_keeps (zone : timezone) (acc : list event) (c : feed) :
  keeps P (ParseCalendar.calendar_step h zone acc c).
Proof.
  unfold ParseCalendar.calendar_step.
  kept_with ltac:(first [apply keeps_eprint | apply script_parse_keeps]).
Qed.

Lemma script_gather_keeps (zone : timezone) (cs : list feed)
    (acc : list event) :
  keeps P (for_loop (ParseCalendar.calendar_step h zone) cs acc).
Proof. apply keeps_for_loop. intros s a. apply script_step_keeps. Qed.

(** Logging the counts, the last thing a pass does. *)
Lemma counts_keeps (counts : list (string * nat)) :
  keeps P (for_loop (fun (_ : unit) '(cal_name, count) =>
                       logger_info (Count cal_name count)) counts tt).
Proof.
  apply keeps_for_loop. intros _ [cal_name count]. apply keeps_emit.
Qed.

End Keeps.

(** *** The log only grows *)

Lemma log_extends_refl (w : world) : log_extends w w.
Proof. exists []. now rewrite app_nil_r. Qed.

Lemma log_extends_trans (a b c : world) :
  log_extends a b -> log_extends b c -> log_extends a c.
Proof.
  intros [l1 H1] [l2 H2]. exists (l1 ++ l2). now rewrite H2, H1, app_assoc.
Qed.

Lemma log_extends_emit (lv : level) (m : message) (w : world) :
  log_extends w (after (emit lv m w)).
Proof. now exists [(lv, m)]. Qed.

Lemma log_extends_today (h : host) (tz : timezone) (w : world) :
  log_extends w (after (today h tz w)).
Proof. exists []. cbn. now rewrite app_nil_r. Qed.

Lemma log_extends_store (p t : string) (w : world) :
  log_extends w (store p t w).
Proof. exists []. cbn. now rewrite app_nil_r. Qed.

(** A line logged stays logged. *)
Lemma grows_In {A} (m : M A) (w : world) (x : level * message) :
  grows m -> In x (log w) -> In x (log (after (m w))).
Proof.
  intros Hm Hx. destruct (Hm w) as [l ->]. apply in_or_app. now left.
Qed.

(** *** The loop leaves the disk and the standard output alone *)

Lemma untouched_refl (w : world) : untouched w w.
Proof. split; reflexivity. Qed.

Lemma untouched_trans (a b c : world) :
  untouched a b -> untouched b c -> untouched a c.
Proof. intros [H1 H2] [H3 H4]. split; congruence. Qed.

Lemma untouched_emit (lv : level) (m : message) (w : world) :
  untouched w (after (emit lv m w)).
Proof. split; reflexivity. Qed.

Lemma untouched_today (h : host) (tz : timezone) (w : world) :
  untouched w (after (today h tz w)).
Proof. split; reflexivity. Qed.

Lemma untouched_eprint (m : message) (w : world) :
  untouched w (after (eprint m w)).
Proof. split; reflexivity. Qed.

Section ServiceBehaves.

Variables (h : host) (self : self_t).

Lemma process_event_total (c : component) (t : date) (n : string) :
  total (_process_event h self c t n).
Proof. unfold _process_event, logger_warning. behaved. Qed.

Lemma parse_calendar_events_total (data n : string) :
  total (_parse_calendar_events h self data n).
Proof.
  unfold _parse_calendar_events, logger_error, logger_info,
    CalendarProcessor.walk_step.
  behaved_with ltac:(apply process_event_total).
Qed.

Lemma fetch_total (url : string) : total (_fetch_ical_data h url).
Proof. unfold _fetch_ical_data, logger_error. behaved. Qed.

Lemma calendar_step_total (acc : list event) (c : feed) :
  total (calendar_step h self acc c).
Proof.
  unfold calendar_step, logger_error.
  behaved_with
    ltac:(first [apply fetch_total | apply parse_calendar_events_total]).
Qed.

Lemma sort_and_save_total (evs : list event) :
  total (sort_and_save h self evs).
Proof. unfold sort_and_save, logger_error. behaved. Qed.

Lemma calendar_step_grows (acc : list event) (c : feed) :
  grows (calendar_step h self acc c).
Proof.
  apply calendar_step_keeps;
    [ exact log_extends_refl | exact log_extends_trans
    | exact log_extends_emit | exact log_extends_today ].
Qed.

Lemma gather_grows (cs : list feed) (acc : list event) :
  grows (for_loop (calendar_step h self) cs acc).
Proof.
  apply gather_keeps;
    [ exact log_extends_refl | exact log_extends_trans
    | exact log_extends_emit | exact log_extends_today ].
Qed.

Lemma gather_untouched (cs : list feed) (acc : list event) :
  keeps untouched (for_loop (calendar_step h self) cs acc).
Proof.
  apply gather_keeps;
    [ exact untouched_refl | exact untouched_trans
    | exact untouched_emit | exact untouched_today ].
Qed.

Lemma write_grows (p t : string) : grows (write_text h p t).
Proof.
  intros w. unfold write_text, after.
  destruct (disk_fault h); cbn [snd];
    first [apply log_extends_refl | apply log_extends_store].
Qed.

Lemma sort_and_save_grows (evs : list event) :
  grows (sort_and_save h self evs).
Proof.
  unfold sort_and_save, logger_error, logger_info.
  apply (keeps_try _ log_extends_trans).
  - apply (keeps_bind _ log_extends_trans); [apply write_grows|].
    intros _. apply (keeps_bind _ log_extends_trans).
    + intros w. apply log_extends_emit.
    + intros _.
      apply (counts_keeps _ log_extends_refl log_extends_trans
               log_extends_emit).
  - intros e w. apply log_extends_emit.
Qed.

Lemma process_calendars_unfold :
  process_calendars h self
  = bind (logger_info Starting)
      (fun _ => bind (for_loop (calendar_step h self)
                               (self_calendars self) [])
                  (sort_and_save h self)).
Proof. reflexivity. Qed.

(** The service returns from every pass. *)
Lemma process_calendars_total : total (process_calendars h self).
Proof.
  rewrite process_calendars_unfold. unfold logger_info.
  behaved_with
    ltac:(first [apply calendar_step_total | apply sort_and_save_total]).
Qed.

Lemma process_calendars_returns (w : world) :
  result (process_calendars h self w) = Returns tt.
Proof.
  destruct (process_calendars_total w) as [[] H]. exact H.
Qed.

End ServiceBehaves.

(* ================================================================== *)
(** * Feed aggregation *)

Section FeedAggregator.

Variables (h : host) (self : self_t).

(** *** One component *)

Lemma reading_raises_no_event (c : component) (t : date) (n : string) :
  reading_raises h self c t = true -> event_of h self c t n = None.
Proof.
  unfold reading_raises, event_of.
  destruct (dtstart c) as [[dt|[|x l]]|]; cbn; try discriminate; auto.
  destruct (date_eqb (_get_event_date h self dt) t); cbn;
    [intros ->; reflexivity | discriminate].
Qed.

Lemma process_event_run (c : component) (t : date) (n : string)
    (w : world) :
  _process_event h self c t n w
  = (Returns (event_of h self c t n),
     if reading_raises h self c t then logged w [dropped_warning] else w).
Proof.
  unfold reading_raises, event_of.
  destruct (unreadable (dtstart c)) eqn:Us.
  - rewrite process_event_bad_start by exact Us.
    destruct (dtstart c) as [[dt|[|x l]]|]; try discriminate Us.
    reflexivity.
  - destruct (unreadable_cases _ Us) as [Hf|[dt Hs]].
    + rewrite process_event_no_start by exact Hf.
      destruct (dtstart c) as [[dt|[|x l]]|]; try discriminate Hf;
        reflexivity.
    + rewrite Hs. cbn [orb].
      destruct (date_eqb (_get_event_date h self dt) t) eqn:E.
      * apply date_eqb_eq in E. destruct (unreadable (dtend c)) eqn:Ue.
        -- now rewrite (process_event_bad_end h self c t n w dt Hs E Ue).
        -- now rewrite (process_event_included h self c t n w dt Hs E Ue).
      * rewrite (process_event_other_date h self c t n w dt Hs);
          [reflexivity|].
        intros D. apply date_eqb_eq in D. congruence.
Qed.

(** *** One walk *)

Lemma walk_events_app (t : date) (n : string) (l1 l2 : list component) :
  walk_events h self t n (l1 ++ l2)
  = walk_events h self t n l1 ++ walk_events h self t n l2.
Proof. unfold walk_events. now rewrite filter_app, flat_map_app. Qed.

(** The loop over the walk gathers [walk_events], counts the event
    components, and logs one warning for each that cannot be read. *)
Lemma walk_run (t : date) (n : string) (cal : list component) :
  forall (evs : list event) (k : nat) (w : world),
  exists l,
    for_loop (CalendarProcessor.walk_step h self t n) cal (evs, k) w
    = (Returns (evs ++ walk_events h self t n cal,
                (k + List.length (filter is_vevent cal))%nat),
       logged w l)
    /\ (forall c, In c cal -> is_vevent c = true ->
                  reading_raises h self c t = true ->
                  In dropped_warning l).
Proof.
  induction cal as [|c cal IH]; intros evs k w.
  - exists []. rewrite logged_nil. cbn. rewrite app_nil_r, Nat.add_0_r.
    split; [reflexivity | intros c []].
  - cbn [for_loop]. unfold bind, CalendarProcessor.walk_step at 1.
    unfold walk_events. cbn [filter]. fold (is_vevent c).
    destruct (is_vevent c) eqn:V.
    + unfold bind. rewrite process_event_run. cbn [flat_map].
      destruct (reading_raises h self c t) eqn:Rr.
      * rewrite (reading_raises_no_event c t n Rr).
        destruct (IH evs (S k) (logged w [dropped_warning]))
          as (l & E & Hl).
        exists (dropped_warning :: l). unfold ret. rewrite E.
        rewrite logged_logged. cbn [app List.length].
        rewrite Nat.add_succ_r. split; [reflexivity|].
        intros c' _ _ _. now left.
      * destruct (event_of h self c t n) as [e|]; unfold ret.
        -- destruct (IH (evs ++ [e]) (S k) w) as (l & E & Hl).
           exists l. rewrite E. cbn [app List.length].
           rewrite <- app_assoc, Nat.add_succ_r. split; [reflexivity|].
           intros c' [<-|Hin] Hv Hr; [congruence | eauto].
        -- destruct (IH evs (S k) w) as (l & E & Hl).
           exists l. rewrite E. cbn [app List.length].
           rewrite Nat.add_succ_r. split; [reflexivity|].
           intros c' [<-|Hin] Hv Hr; [congruence | eauto].
    + unfold ret. destruct (IH evs k w) as (l & E & Hl).
      exists l. rewrite E. split; [reflexivity|].
      intros c' [<-|Hin] Hv Hr; [congruence | eauto].
Qed.

(** *** One feed that fails *)

Lemma fetch_failure_step (c : feed) (e : exn) (acc : list event)
    (w : world) :
  fetch_fails h c e ->
  calendar_step h self acc c w
  = (Returns acc,
     logged w [(INFO, Fetching (feed_url c));
               (ERROR, FetchError (feed_url c) e)]).
Proof.
  unfold fetch_fails. intros H.
  unfold calendar_step, _fetch_ical_data. run. rewrite H. cbn [fst snd].
  unfold logged; cbn. now rewrite <- app_assoc.
Qed.

Lemma parse_failure_step (c : feed) (e : exn) (acc : list event)
    (w : world) :
  parse_fails h c e ->
  calendar_step h self acc c w
  = (Returns acc,
     logged w [(INFO, Fetching (feed_url c));
               (ERROR, ParseError (feed_name c) e)]).
Proof.
  intros (data & Hu & Hne & Hp).
  unfold calendar_step, _fetch_ical_data, _parse_calendar_events. run.
  rewrite Hu. cbn [fst snd].
  destruct data as [|a d]; [congruence|]. rewrite Hp. cbn [fst snd].
  rewrite app_nil_r. unfold logged; cbn. now rewrite <- app_assoc.
Qed.

End FeedAggregator.

(** ** Runs on one host *)

Lemma clock_emit_l (w1 w2 : world) (lv : level) (m : message) :
  same_disk_and_clock w1 w2 -> same_disk_and_clock (after (emit lv m w1)) w2.
Proof. intros H. exact H. Qed.

Lemma clock_emit_r (w1 w2 : world) (lv : level) (m : message) :
  same_disk_and_clock w1 w2 -> same_disk_and_clock w1 (after (emit lv m w2)).
Proof. intros H. exact H. Qed.

Lemma clock_store (w1 w2 : world) (p t : string) :
  same_disk_and_clock w1 w2 ->
  same_disk_and_clock (store p t w1) (store p t w2).
Proof.
  intros (Hf & Ho & Ht). repeat split; auto. now apply store_files.
Qed.

Section OneHost.

Variables (h : host) (self : self_t).

(** Leaving out a feed whose step only logs changes neither what the loop
    gathers nor what the pass leaves on disk. *)
Lemma leave_out_related (bad : feed) (pre post : list feed) :
  (forall a w, exists l,
      calendar_step h self a bad w = (Returns a, logged w l)) ->
  related same_disk_and_clock
    (process_calendars h (with_calendars self (pre ++ bad :: post)))
    (process_calendars h (with_calendars self (pre ++ post))).
Proof.
  intros Hbad.
  apply process_calendars_sim;
    [exact clock_emit_l | exact clock_emit_r | exact clock_store
    | reflexivity | reflexivity |].
  cbn [self_calendars with_calendars].
  apply skip_feed_sim;
    [exact clock_emit_l | exact clock_emit_r | reflexivity
    | reflexivity | reflexivity | now left
    | now apply today_same_clock | exact Hbad].
Qed.

Lemma leave_out_gathered (bad : feed) (pre post : list feed) (w : world) :
  (forall a w, exists l,
      calendar_step h self a bad w = (Returns a, logged w l)) ->
  gathered h (with_calendars self (pre ++ bad :: post)) w
  = gathered h (with_calendars self (pre ++ post)) w.
Proof.
  intros Hbad. unfold gathered. cbn [self_calendars with_calendars].
  apply (skip_feed_sim same_disk_and_clock clock_emit_l clock_emit_r
           h h _ _ eq_refl (fun _ => eq_refl) (fun _ => eq_refl)
           (fun _ => or_introl eq_refl)
           (today_same_clock h h _ (fun _ => eq_refl))
           bad pre post [] Hbad).
  apply same_disk_and_clock_refl.
Qed.

(** What the step of a feed logs is in the log at the end of the pass. *)
Lemma step_log_stays (bad : feed) (pre post : list feed) (w : world)
    (x : level * message) :
  (forall a w, exists l,
      calendar_step h self a bad w = (Returns a, logged w l) /\ In x l) ->
  In x (log (after (process_calendars
                      h (with_calendars self (pre ++ bad :: post)) w))).
Proof.
  intros Hbad. rewrite process_calendars_unfold.
  cbn [self_calendars with_calendars].
  set (w0 := after (logger_info Starting w)).
  set (step := calendar_step h (with_calendars self (pre ++ bad :: post))).
  assert (E0 : forall k : list event -> M unit,
             after (bind (logger_info Starting)
                      (fun _ => bind (for_loop step (pre ++ bad :: post) [])
                                  k) w)
             = after (bind (for_loop step (pre ++ bad :: post) []) k w0))
    by reflexivity.
  rewrite E0. clear E0.
  assert (E1 : exists a1 w1, for_loop step pre [] w0 = (Returns a1, w1)).
  { destruct (total_for_loop step pre (calendar_step_total h _) [] w0)
      as [a1 Ha1].
    exists a1, (snd (for_loop step pre [] w0)).
    unfold result in Ha1. destruct (for_loop step pre [] w0); cbn in *.
    now subst. }
  destruct E1 as (a1 & w1 & E1).
  destruct (Hbad a1 w1) as (l & Hl & Hx).
  assert (E2 : for_loop step (pre ++ bad :: post) [] w0
               = for_loop step post a1 (logged w1 l)).
  { rewrite for_loop_app. unfold bind at 1. rewrite E1.
    cbn [for_loop]. unfold bind. unfold step at 1.
    change (calendar_step h (with_calendars self (pre ++ bad :: post)))
      with (calendar_step h self).
    now rewrite Hl. }
  unfold bind at 1. rewrite E2.
  assert (In x (log (after (for_loop step post a1 (logged w1 l))))) as Hin.
  { apply grows_In.
    - apply gather_grows.
    - cbn. apply in_or_app. now right. }
  unfold after in *.
  destruct (for_loop step post a1 (logged w1 l)) as [[a2|e2] w2];
    cbn [snd] in *; [|exact Hin].
  apply (grows_In (sort_and_save h _ a2) w2 x); [|exact Hin].
  apply sort_and_save_grows.
Qed.

End OneHost.

(** C5. A feed whose fetch or whose parse fails contributes no event: the
    failure is logged as an error, the pass returns, and what the pass
    gathers and leaves on disk is what it gathers and leaves without that
    feed in the list. Within a feed, an event component that cannot be
    read is dropped with a warning, and the loop over the other components
    gathers what it gathers without it. *)
Theorem C5_failures_are_isolated :
  forall (h : host) (self : self_t),
    (forall (pre post : list feed) (bad : feed) (e : exn) (w : world),
        fetch_fails h bad e \/ parse_fails h bad e ->
        let with_bad := with_calendars self (pre ++ bad :: post) in
        let without := with_calendars self (pre ++ post) in
        (forall acc w',
            result (calendar_step h self acc bad w') = Returns acc)
        /\ result (process_calendars h with_bad w) = Returns tt
        /\ (In (ERROR, FetchError (feed_url bad) e)
               (log (after (process_calendars h with_bad w)))
            \/ In (ERROR, ParseError (feed_name bad) e)
                  (log (after (process_calendars h with_bad w))))
        /\ gathered h with_bad w = gathered h without w
        /\ files (after (process_calendars h with_bad w))
           = files (after (process_calendars h without w)))
    /\ (forall (l1 l2 : list component) (c : component) (today : date)
               (calendar_name : string) (w : world),
           is_vevent c = true ->
           reading_raises h self c today = true ->
           exists evs k w1 w2,
             for_loop (CalendarProcessor.walk_step h self today calendar_name)
                      (l1 ++ c :: l2) ([], 0%nat) w
             = (Returns (evs, S k), w1)
             /\ for_loop (CalendarProcessor.walk_step h self today
                                                      calendar_name)
                         (l1 ++ l2) ([], 0%nat) w
                = (Returns (evs, k), w2)
             /\ In dropped_warning (log w1)).
Proof.
  intros h self. split.
  - intros pre post bad e w Hfail with_bad without.
    assert (Hlogs : forall a w', exists l,
               calendar_step h self a bad w' = (Returns a, logged w' l)).
    { intros a w'. destruct Hfail as [Hf|Hp]; eexists.
      - exact (fetch_failure_step h self bad e a w' Hf).
      - exact (parse_failure_step h self bad e a w' Hp). }
    split; [|split; [|split; [|split]]].
    + intros acc w'. destruct (Hlogs acc w') as [l E]. unfold result.
      now rewrite E.
    + apply process_calendars_returns.
    + destruct Hfail as [Hf|Hp].
      * left. apply step_log_stays. intros a w'. eexists.
        split; [exact (fetch_failure_step h self bad e a w' Hf)|].
        cbn. auto.
      * right. apply step_log_stays. intros a w'. eexists.
        split; [exact (parse_failure_step h self bad e a w' Hp)|].
        cbn. auto.
    + now apply leave_out_gathered.
    + apply (leave_out_related h self bad pre post Hlogs w w).
      apply same_disk_and_clock_refl.
  - intros l1 l2 c today n w Hv Hr.
    destruct (walk_run h self today n (l1 ++ c :: l2) [] 0%nat w)
      as (la & Ea & Hla).
    destruct (walk_run h self today n (l1 ++ l2) [] 0%nat w)
      as (lb & Eb & _).
    exists (walk_events h self today n (l1 ++ l2)),
      (List.length (filter is_vevent (l1 ++ l2))), (logged w la),
      (logged w lb).
    split; [|split].
    + rewrite Ea. do 2 f_equal. apply pair_equal_spec. split.
      * cbn [app]. rewrite !walk_events_app.
        change (c :: l2) with ([c] ++ l2). rewrite walk_events_app.
        unfold walk_events at 2. cbn [filter]. rewrite Hv. cbn [flat_map].
        now rewrite (reading_raises_no_event h self c today n Hr).
      * cbn [Nat.add]. rewrite !filter_app, !length_app. cbn [filter].
        rewrite Hv. cbn [List.length]. lia.
    + exact Eb.
    + cbn. apply in_or_app. right.
      apply (Hla c); auto. apply in_or_app. right. now left.
Qed.

(** C5 at work: with feed A up and a second feed down, the pass leaves on
    disk what it leaves with feed A alone. *)
Lemma C5_feed_down_witness :
  files (after (process_calendars
                  demo_host (with_calendars london_self [feed_a; feed_down])
                  empty_world))
  = files (after (process_calendars
                    demo_host (with_calendars london_self [feed_a])
                    empty_world))
  /\ exists evs k w1 w2,
       for_loop (CalendarProcessor.walk_step demo_host london_self
                   (mkdate 2024 6 16) "A")
                ([at_10] ++ twice_started :: [at_14]) ([], 0%nat) empty_world
       = (Returns (evs, S k), w1)
       /\ for_loop (CalendarProcessor.walk_step demo_host london_self
                      (mkdate 2024 6 16) "A")
                   ([at_10] ++ [at_14]) ([], 0%nat) empty_world
          = (Returns (evs, k), w2)
       /\ In dropped_warning (log w1).
Proof.
  destruct (C5_failures_are_isolated demo_host london_self) as [Hfeed Hcomp].
  split.
  - apply (Hfeed [feed_a] [] feed_down URLError empty_world).
    left. reflexivity.
  - apply (Hcomp [at_10] [at_14] twice_started (mkdate 2024 6 16) "A"%string
                 empty_world); reflexivity.
Defined.

(** ** An empty answer *)

Lemma empty_body_step (h : host) (self : self_t) (c : feed)
    (acc : list event) (w : world) :
  urlopen h (feed_url c) = Returns EmptyString ->
  calendar_step h self acc c w
  = (Returns acc, logged w [(INFO, Fetching (feed_url c))]).
Proof.
  intros H. unfold calendar_step, _fetch_ical_data. run. rewrite H.
  reflexivity.
Qed.

Lemma with_failing_net (h : host) (url : string) (e : exn) :
  urlopen h url = Returns EmptyString ->
  forall u, urlopen h u = urlopen (with_failing h url e) u
            \/ (skipped (urlopen h u)
                /\ skipped (urlopen (with_failing h url e) u)).
Proof.
  intros H u. cbn. destruct (String.eqb_spec u url) as [->|Hne].
  - right. split; [now left | right; now exists e].
  - now left.
Qed.

(** C10. A fetch that returns no bytes is skipped before parsing: the step
    of the feed returns the events gathered so far and logs the fetch and
    nothing else (the parser is not called, the clock is not read). What
    the pass gathers and what it leaves on disk are what they are on a host
    where that fetch raises. *)
Theorem C10_empty_body_is_skipped :
  forall (h : host) (self : self_t) (url : string) (e : exn) (w : world),
    urlopen h url = Returns EmptyString ->
    (forall c acc w', feed_url c = url ->
        calendar_step h self acc c w'
        = (Returns acc, logged w' [(INFO, Fetching url)]))
    /\ gathered h self w = gathered (with_failing h url e) self w
    /\ files (after (process_calendars h self w))
       = files (after (process_calendars (with_failing h url e) self w)).
Proof.
  intros h self url e w H.
  pose proof (with_failing_net h url e H) as Hnet.
  assert (Hloop : forall cs acc,
             related same_disk_and_clock
               (for_loop (calendar_step h self) cs acc)
               (for_loop (calendar_step (with_failing h url e) self) cs acc)).
  { intros cs acc.
    apply gather_sim;
      [exact clock_emit_l | exact clock_emit_r | reflexivity
      | reflexivity | reflexivity | exact Hnet
      | now apply today_same_clock ]. }
  split; [|split].
  - intros c acc w' <-. now apply empty_body_step.
  - unfold gathered. apply Hloop. apply same_disk_and_clock_refl.
  - apply (process_calendars_sim same_disk_and_clock clock_emit_l
             clock_emit_r clock_store h (with_failing h url e) self self
             eq_refl eq_refl (Hloop _ _) w w).
    apply same_disk_and_clock_refl.
Qed.

(** C10 at work: a pass over feed A and the address that answers with no
    bytes leaves on disk what it leaves when that address is down. *)
Lemma C10_empty_body_witness :
  files (after (process_calendars
                  demo_host (with_calendars london_self [feed_empty; feed_a])
                  empty_world))
  = files (after (process_calendars
                    (with_failing demo_host "http://empty" URLError)
                    (with_calendars london_self [feed_empty; feed_a])
                    empty_world)).
Proof.
  apply (C10_empty_body_is_skipped demo_host
           (with_calendars london_self [feed_empty; feed_a])
           "http://empty" URLError empty_world).
  reflexivity.
Defined.

(* ================================================================== *)
(** * Merging *)

(** ** The order on the start strings *)







(** ** The sort *)

Section Merge.

Import Common.

Lemma insert_perm (e : event) (l : list event) :
  Permutation (e :: l) (insert e l).
Proof.
  induction l as [|x l IH]; cbn [insert].
  - apply Permutation_refl.
  - destruct (String.leb (start e) (start x)).
    + apply Permutation_refl.
    + eapply perm_trans; [apply perm_swap|]. now apply perm_skip.
Qed.

Lemma sort_perm (l : list event) : Permutation l (sort_by_start l).
Proof.
  induction l as [|e l IH]; cbn [sort_by_start].
  - apply perm_nil.
  - eapply perm_trans; [apply perm_skip, IH | apply insert_perm].
Qed.






End Merge.

(** ** The loop over the feeds concatenates *)

Lemma for_loop_concat (step : list event -> feed -> M (list event))
    (cs : list feed) :
  appends step ->
  forall acc w, exists w',
    for_loop step cs acc w
    = (Returns (acc ++ List.concat (batches (step []) cs w)), w').
Proof.
  intros Hstep. induction cs as [|c cs IH]; intros acc w.
  - exists w. cbn. now rewrite app_nil_r.
  - cbn [for_loop batches]. unfold bind.
    destruct (Hstep acc c w) as (evs & w1 & E0 & E1). rewrite E1, E0.
    destruct (IH (acc ++ evs) w1) as [w2 E2]. exists w2. rewrite E2.
    cbn [List.concat]. now rewrite app_assoc.
Qed.

Lemma run_total {A} (m : M A) (w : world) :
  total m -> exists a w', m w = (Returns a, w').
Proof.
  intros H. destruct (H w) as [a Ha]. unfold result in Ha.
  destruct (m w) as [r w']; cbn in Ha; subst. now exists a, w'.
Qed.

Lemma service_step_appends (h : host) (self : self_t) :
  appends (calendar_step h self).
Proof.
  intros acc c w. unfold calendar_step, try_except, bind.
  destruct (run_total _ w (fetch_total h (feed_url c))) as (r & w1 & ->).
  destruct r as [[|a data]|].
  - exists [], w1. unfold ret. now rewrite app_nil_r.
  - destruct (run_total _ w1
                (parse_calendar_events_total h self (String a data)
                   (feed_name c))) as (evs & w2 & ->).
    exists evs, w2. split; reflexivity.
  - exists [], w1. unfold ret. now rewrite app_nil_r.
Qed.

Lemma script_parse_total (h : host) (url n : string) (zone : timezone) :
  total (ParseCalendar.parse_ical_url h url n zone).
Proof.
  unfold ParseCalendar.parse_ical_url. apply total_try. intros e.
  apply total_bind; [intros w; now exists tt | intros _; apply total_ret].
Qed.

Lemma script_step_appends (h : host) (zone : timezone) :
  appends (ParseCalendar.calendar_step h zone).
Proof.
  intros acc c w. unfold ParseCalendar.calendar_step, bind, eprint.
  match goal with
  | |- context [ParseCalendar.parse_ical_url h ?u ?n zone ?w0] =>
      destruct (run_total _ w0 (script_parse_total h u n zone))
        as (evs & w1 & ->)
  end.
  eexists evs, _. split; reflexivity.
Qed.

(** ** The second half of a pass *)

Lemma counts_run (counts : list (string * nat)) (w : world) :
  exists l,
    for_loop (fun (_ : unit) '(cal_name, count) =>
                logger_info (Count cal_name count)) counts tt w
    = (Returns tt, logged w l).
Proof.
  revert w. induction counts as [|[n k] counts IH]; intros w.
  - exists []. now rewrite logged_nil.
  - cbn [for_loop]. unfold bind, logger_info. rewrite emit_run.
    destruct (IH (logged w [(INFO, Count n k)])) as [l E].
    exists ((INFO, Count n k) :: l). unfold logger_info in E. rewrite E.
    now rewrite logged_logged.
Qed.

Section Persist.

Variables (h : host) (self : self_t) (evs : list event) (w : world).

Let path := self_output_file self.
Let text := Json.dumps false (Common.sort_by_start evs).

Lemma save_no_fault :
  disk_fault h = NoFault ->
  exists l, sort_and_save h self evs w
            = (Returns tt, logged (store path text w) l).
Proof.
  intros Hf. unfold sort_and_save, try_except, bind, write_text.
  rewrite Hf. unfold logger_info at 1. rewrite emit_run.
  match goal with
  | |- context [for_loop ?b ?cs tt ?w0] =>
      destruct (counts_run cs w0) as [l E]
  end.
  eexists. rewrite E. now rewrite logged_logged.
Qed.

Lemma save_open_fails :
  disk_fault h = OpenFails ->
  sort_and_save h self evs w
  = (Returns tt, logged w [(ERROR, WriteError path OSError)]).
Proof.
  intros Hf. unfold sort_and_save, try_except, bind, write_text.
  now rewrite Hf.
Qed.

Lemma save_write_fails (n : nat) :
  disk_fault h = WriteFails n ->
  sort_and_save h self evs w
  = (Returns tt,
     logged (store path (Str.prefix n text) w)
            [(ERROR, WriteError path OSError)]).
Proof.
  intros Hf. unfold sort_and_save, try_except, bind, write_text.
  now rewrite Hf.
Qed.

End Persist.

(** A pass is its loop, which touches neither disk nor standard output,
    followed by its second half on the concatenation of the batches. *)
Lemma process_calendars_run (h : host) (self : self_t) (w : world) :
  exists w1,
    untouched w w1
    /\ gathered h self w = Returns (List.concat (service_batches h self w))
    /\ process_calendars h self w
       = sort_and_save h self (List.concat (service_batches h self w)) w1.
Proof.
  destruct (for_loop_concat (calendar_step h self) (self_calendars self)
              (service_step_appends h self) []
              (after (logger_info Starting w))) as [w1 E].
  exists w1. split; [|split].
  - pose proof (gather_untouched h self (self_calendars self) []
                  (after (logger_info Starting w))) as H.
    rewrite E in H. exact H.
  - unfold gathered. now rewrite E.
  - rewrite process_calendars_unfold. unfold bind at 1.
    change (logger_info Starting w)
      with (Returns tt, after (logger_info Starting w)).
    cbv iota beta. unfold bind. rewrite E. reflexivity.
Qed.

(** ** What the two programs hand over *)

Lemma split_comma_not_nil (s : string) : Str.split_comma s <> [].
Proof.
  induction s as [|c s IH]; cbn; [discriminate|].
  destruct (Ascii.eqb c ","); [discriminate|].
  destruct (Str.split_comma s); [contradiction | discriminate].
Qed.

Lemma files_logged (w : world) (l : list (level * message)) :
  files (logged w l) = files w.
Proof. reflexivity. Qed.

Lemma files_store_same (p t : string) (w : world) :
  files (store p t w) p = Some t.
Proof. cbn. now rewrite String.eqb_refl. Qed.

Lemma files_store_other (p q t : string) (w : world) :
  q <> p -> files (store p t w) q = files w q.
Proof. intros H. cbn. apply String.eqb_neq in H. now rewrite H. Qed.

(** The service, when the disk takes the write, leaves the serialised merge
    in its output file. *)
Lemma service_output (h : host) (self : self_t) (w : world) :
  disk_fault h = NoFault ->
  output self (after (process_calendars h self w))
  = Some (Json.dumps false (merged h self w)).
Proof.
  intros Hf. destruct (process_calendars_run h self w) as (w1 & _ & _ & ->).
  destruct (save_no_fault h self (List.concat (service_batches h self w))
              w1 Hf) as [l ->].
  unfold output, after. cbn [snd]. rewrite files_logged.
  apply files_store_same.
Qed.

(** The script looks its zone up before anything else: a name the tz
    database does not hold ends the run there, with nothing printed. *)
Lemma script_unknown_zone (h : host) (e : exn) (w : world) :
  script_zone h = Raises e -> ParseCalendar.main h w = (Raises e, w).
Proof.
  intros Hz. unfold ParseCalendar.main. fold (script_zone h).
  rewrite Hz. reflexivity.
Qed.

(** With the zone found, the script goes on to its two lists. *)
Lemma script_known_zone (h : host) (zone : timezone) (w : world) :
  script_zone h = Returns zone ->
  ParseCalendar.main h w
  = match configured_urls h, configured_names h with
    | [], _ | _, [] => eprint ConfigUnset w
    | _, _ =>
        if negb (List.length (configured_urls h)
                 =? List.length (configured_names h))%nat
        then eprint ConfigMismatch w
        else
          bind (for_loop (ParseCalendar.calendar_step h zone)
                         (script_feeds h) [])
               (fun all_events =>
                  print (Json.dumps true (Common.sort_by_start all_events)))
               w
    end.
Proof.
  intros Hz. unfold ParseCalendar.main. fold (script_zone h).
  rewrite Hz. unfold script_feeds, configured_urls, configured_names.
  destruct (Str.split_comma (getenv h "ICAL_URLS" EmptyString));
    destruct (Str.split_comma (getenv h "CALENDAR_NAMES" EmptyString));
    try reflexivity.
  unfold bind at 1, lift.
  now destruct (negb (List.length (s :: l) =? List.length (s0 :: l0))%nat).
Qed.

(** The script, when its zone is known and its two lists have the same
    length, prints the serialised merge and nothing else. *)
Lemma script_output (h : host) (zone : timezone) (w : world) :
  script_zone h = Returns zone ->
  List.length (configured_urls h) = List.length (configured_names h) ->
  stdout (after (ParseCalendar.main h w))
  = stdout w ++ [Json.dumps true (script_merged h zone w)].
Proof.
  intros Hz Hlen. rewrite (script_known_zone h zone w Hz).
  pose proof (split_comma_not_nil (getenv h "ICAL_URLS" EmptyString)) as Hu.
  pose proof (split_comma_not_nil (getenv h "CALENDAR_NAMES" EmptyString))
    as Hn.
  fold (configured_urls h) in Hu. fold (configured_names h) in Hn.
  destruct (configured_urls h) as [|u us] eqn:Eu; [contradiction|].
  destruct (configured_names h) as [|n ns] eqn:En; [contradiction|].
  rewrite Hlen, Nat.eqb_refl. cbn [negb].
  destruct (for_loop_concat (ParseCalendar.calendar_step h zone)
              (script_feeds h) (script_step_appends h zone) [] w)
    as [w1 E].
  pose proof (script_gather_keeps untouched untouched_refl untouched_trans
                untouched_today untouched_eprint h zone
                (script_feeds h) [] w) as [_ Hout].
  rewrite E in Hout. unfold after in Hout. cbn [snd] in Hout.
  unfold bind, after. rewrite E. unfold print. cbn [snd stdout app].
  rewrite Hout. reflexivity.
Qed.



(* ================================================================== *)
(** * Persisting *)

(** C7, as the claim states it, fails: when the writing fails after the
    file was opened, the error is logged and the pass returns, but the
    output an earlier pass had left is gone and the file holds the part of
    the new output that was written. *)
Lemma C7_failed_write_loses_earlier_output :
  let self := with_calendars london_self [feed_a] in
  let run := process_calendars failing_disk_host self earlier_output in
  disk_fault failing_disk_host = WriteFails 1
  /\ result run = Returns tt
  /\ In (ERROR, WriteError "./calendar.json" OSError) (log (after run))
  /\ output self earlier_output = Some "[]"%string
  /\ output self (after run) = Some "["%string
  /\ output self (after run) <> output self earlier_output.
Proof.
  cbv zeta. split; [reflexivity|].
  split; [vm_compute; reflexivity|].
  split; [vm_compute; repeat (first [left; reflexivity | right])|].
  split; [vm_compute; reflexivity|].
  split; [vm_compute; reflexivity|].
  vm_compute. discriminate.
Qed.

(** What a pass leaves on disk, by the fate of the write. *)
Lemma pass_output (h : host) (self : self_t) (w : world) :
  let w' := after (process_calendars h self w) in
  let text := Json.dumps false (merged h self w) in
  let error := (ERROR, WriteError (self_output_file self) OSError) in
  (forall p, p <> self_output_file self -> files w' p = files w p)
  /\ match disk_fault h with
     | NoFault => output self w' = Some text
     | OpenFails => output self w' = output self w /\ In error (log w')
     | WriteFails n =>
         output self w' = Some (Str.prefix n text) /\ In error (log w')
     end.
Proof.
  intros w' text error.
  subst w'. destruct (process_calendars_run h self w)
    as (w1 & [Hfiles _] & _ & ->).
  fold (merged h self w) in text.
  destruct (disk_fault h) as [| |n] eqn:Hf.
  - destruct (save_no_fault h self (List.concat (service_batches h self w)) w1 Hf) as [l ->].
    unfold output, after. cbn [snd]. rewrite files_logged. split.
    + intros p Hp. rewrite files_store_other by exact Hp. now rewrite Hfiles.
    + apply files_store_same.
  - rewrite (save_open_fails h self (List.concat (service_batches h self w)) w1 Hf).
    unfold output, after. cbn [snd]. rewrite files_logged, Hfiles.
    repeat split. cbn. apply in_or_app. right. now left.
  - rewrite (save_write_fails h self (List.concat (service_batches h self w)) w1 n Hf).
    unfold output, after. cbn [snd]. rewrite files_logged. split; [|split].
    + intros p Hp. rewrite files_store_other by exact Hp. now rewrite Hfiles.
    + apply files_store_same.
    + cbn. apply in_or_app. right. now left.
Qed.

(** C7 (amended). A pass always returns, and touches no file but its output
    file. When the disk takes the write, the output file holds the complete
    serialised result of the pass. When opening the file fails, the error
    is logged and the file is as it was. When the writing fails after the
    file was opened, the error is logged and the file holds the part of the
    new output written before the failure: the earlier output is not kept,
    and the file is replaced in place. *)
Theorem C7_persisting :
  forall (h : host) (self : self_t) (w : world),
    let w' := after (process_calendars h self w) in
    let text := Json.dumps false (merged h self w) in
    let error := (ERROR, WriteError (self_output_file self) OSError) in
    result (process_calendars h self w) = Returns tt
    /\ (forall p, p <> self_output_file self -> files w' p = files w p)
    /\ match disk_fault h with
       | NoFault => output self w' = Some text
       | OpenFails => output self w' = output self w /\ In error (log w')
       | WriteFails n =>
           output self w' = Some (Str.prefix n text) /\ In error (log w')
       end.
Proof.
  intros h self w w' text error. split; [apply process_calendars_returns|].
  apply pass_output.
Qed.

(* ================================================================== *)
(** * Configuration *)

(** ** Trimming *)

Lemma rstrip_idem (s : string) : Str.rstrip (Str.rstrip s) = Str.rstrip s.
Proof.
  induction s as [|c s IH]; [reflexivity|]. cbn [Str.rstrip].
  destruct (Str.rstrip s) as [|a r] eqn:E.
  - destruct (Str.isspace c) eqn:Sp; [reflexivity|].
    cbn [Str.rstrip]. now rewrite Sp.
  - cbn [Str.rstrip] in *. now rewrite IH.
Qed.

Lemma lstrip_head (s : string) :
  Str.lstrip s = EmptyString
  \/ exists c t, Str.lstrip s = String c t /\ Str.isspace c = false.
Proof.
  induction s as [|c s IH]; [now left|]. cbn [Str.lstrip].
  destruct (Str.isspace c) eqn:Sp; [exact IH|].
  right. now exists c, s.
Qed.

Lemma lstrip_rstrip (c : ascii) (t : string) :
  Str.isspace c = false ->
  Str.lstrip (Str.rstrip (String c t)) = Str.rstrip (String c t).
Proof.
  intros Sp. cbn [Str.rstrip]. destruct (Str.rstrip t); rewrite ?Sp;
    cbn [Str.lstrip]; now rewrite Sp.
Qed.

(** What is stored is trimmed. *)
Lemma strip_idem (s : string) : Str.strip (Str.strip s) = Str.strip s.
Proof.
  unfold Str.strip. destruct (lstrip_head s) as [->|(c & t & -> & Sp)].
  - reflexivity.
  - rewrite lstrip_rstrip by exact Sp. apply rstrip_idem.
Qed.

(** ** Pairing *)

Lemma nth_skipn_head (i : nat) (names : list string) (n : string)
    (rest : list string) :
  skipn i names = n :: rest ->
  nth i names EmptyString = n /\ skipn (S i) names = rest
  /\ (i <? List.length names)%nat = true.
Proof.
  revert names. induction i as [|i IH]; intros names H.
  - destruct names; cbn in *; [discriminate|]. injection H as -> ->.
    repeat split. 
  - destruct names as [|x names]; cbn [skipn] in H; [discriminate|].
    destruct (IH names H) as (H1 & H2 & H3). repeat split; auto.
Qed.

(** The loop pairs each URL entry with the name at its position and keeps
    the pairs whose URL entry is not blank. *)
Lemma pair_up_positional (urls names : list string) :
  forall i,
    List.length urls = List.length (skipn i names) ->
    Common.pair_up i urls names
    = map descriptor (filter has_url (combine urls (skipn i names))).
Proof.
  induction urls as [|u urls IH]; intros i Hlen; [reflexivity|].
  cbn [Common.pair_up]. destruct (skipn i names) as [|n rest] eqn:E;
    [discriminate|].
  destruct (nth_skipn_head i names n rest E) as (Hn & Hs & Hi).
  cbn [combine filter]. unfold has_url at 1. cbn [fst].
  rewrite Hi, andb_true_r, <- Hs. cbn [List.length] in Hlen.
  rewrite IH by (rewrite Hs; lia).
  destruct (Str.truthy (Str.strip u)); [|reflexivity].
  cbn [map]. unfold descriptor at 2. cbn [fst snd]. now rewrite Hn.
Qed.

Lemma load_config_run (h : host) (w : world) :
  _load_calendar_config h w
  = if (List.length (configured_urls h)
        =? List.length (configured_names h))%nat
    then (Returns (script_feeds h),
          logged w [(INFO, Loaded (List.length (script_feeds h)))])
    else (Returns [], logged w [(ERROR, ConfigMismatch)]).
Proof.
  unfold _load_calendar_config.
  fold (configured_urls h) (configured_names h).
  pose proof (split_comma_not_nil (getenv h "ICAL_URLS" EmptyString)) as Hu.
  pose proof (split_comma_not_nil (getenv h "CALENDAR_NAMES" EmptyString))
    as Hn.
  fold (configured_urls h) in Hu. fold (configured_names h) in Hn.
  unfold script_feeds.
  destruct (configured_urls h) as [|u us]; [contradiction|].
  destruct (configured_names h) as [|n ns]; [contradiction|].
  destruct (List.length (u :: us) =? List.length (n :: ns))%nat;
    reflexivity.
Qed.

(** The constructor looks the zone up first: an unknown name ends it
    there, before any line is logged and before the configuration is
    loaded; with the zone found it logs the zone, loads the configuration
    and returns the service. *)
Lemma init_run (h : host) (w : world) :
  __init__ h w
  = match script_zone h with
    | Raises e => (Raises e, w)
    | Returns zone =>
        let name := getenv h "TIMEZONE" "Europe/London" in
        let path := getenv h "CALENDAR_JSON_PATH" "./calendar.json" in
        if (List.length (configured_urls h)
            =? List.length (configured_names h))%nat
        then (Returns (Self zone path (script_feeds h)),
              logged w [(INFO, UsingTimezone name);
                        (INFO, Loaded (List.length (script_feeds h)))])
        else (Returns (Self zone path []),
              logged w [(INFO, UsingTimezone name);
                        (ERROR, ConfigMismatch)])
    end.
Proof.
  unfold __init__. fold (script_zone h).
  destruct (script_zone h) as [zone|e]; [|reflexivity].
  unfold bind at 1, lift. unfold bind at 1, logger_info.
  rewrite emit_run. unfold bind. rewrite load_config_run.
  destruct (List.length (configured_urls h)
            =? List.length (configured_names h))%nat;
    unfold ret; now rewrite logged_logged.
Qed.

Lemma script_mismatch_run (h : host) (zone : timezone) (w : world) :
  script_zone h = Returns zone ->
  List.length (configured_urls h) <> List.length (configured_names h) ->
  ParseCalendar.main h w
  = (Returns tt,
     World (log w) (files w) (stdout w) (stderr w ++ [ConfigMismatch])
           (ticks w)).
Proof.
  intros Hz Hlen. rewrite (script_known_zone h zone w Hz).
  pose proof (split_comma_not_nil (getenv h "ICAL_URLS" EmptyString)) as Hu.
  pose proof (split_comma_not_nil (getenv h "CALENDAR_NAMES" EmptyString))
    as Hn.
  fold (configured_urls h) in Hu. fold (configured_names h) in Hn.
  destruct (configured_urls h) as [|u us]; [contradiction|].
  destruct (configured_names h) as [|n ns]; [contradiction|].
  apply Nat.eqb_neq in Hlen. rewrite Hlen. reflexivity.
Qed.

(** C8, as the claim states it, fails: with the URLs [http://a,,http://c]
    and the names [A, ,] (three entries each) the service builds two
    descriptors, and the second has the empty name. *)
Lemma C8_blank_entries :
  let h := env_host "http://a,,http://c" "A, ," in
  List.length (configured_urls h) = 3%nat
  /\ List.length (configured_names h) = 3%nat
  /\ result (_load_calendar_config h empty_world)
     = Returns [Feed "A" "http://a"; Feed EmptyString "http://c"].
Proof.
  cbv zeta. split; [vm_compute; reflexivity|].
  split; vm_compute; reflexivity.
Qed.

(** C8 (amended). Loading the configuration never raises. When the two
    lists have the same number of entries, the descriptors are, in order,
    the URL entries that are not blank, each paired with the name at its
    position, both trimmed: every descriptor has a non-empty, trimmed URL
    and a trimmed name (which may be empty), and there are at most as many
    descriptors as entries. When the numbers of entries differ there is no
    descriptor and the loading logs an error and returns. The script builds
    its descriptors by the same pairing. Both programs look the zone up
    before they examine the lists. When the tz database holds the
    configured zone, the constructor of the service returns the service
    with these descriptors, and the script, on lists of different lengths,
    prints the error on its standard error, nothing on its standard
    output, and returns. When it does not, the constructor and the script
    end with the error of the lookup, and nothing was logged or printed. *)
Theorem C8_descriptors :
  forall (h : host) (w : world),
    let urls := configured_urls h in
    let names := configured_names h in
    exists cs,
      result (_load_calendar_config h w) = Returns cs
      /\ (forall d, In d cs ->
            feed_url d <> EmptyString
            /\ Str.strip (feed_url d) = feed_url d
            /\ Str.strip (feed_name d) = feed_name d)
      /\ (List.length cs <= List.length urls)%nat
      /\ (List.length urls = List.length names ->
          cs = map descriptor (filter has_url (combine urls names))
          /\ script_feeds h = cs)
      /\ (List.length urls <> List.length names ->
          cs = []
          /\ In (ERROR, ConfigMismatch)
                (log (after (_load_calendar_config h w)))
          /\ match script_zone h with
             | Returns _ =>
                 result (ParseCalendar.main h w) = Returns tt
                 /\ stdout (after (ParseCalendar.main h w)) = stdout w
                 /\ In ConfigMismatch
                       (stderr (after (ParseCalendar.main h w)))
             | Raises e => ParseCalendar.main h w = (Raises e, w)
             end)
      /\ match script_zone h with
         | Returns zone =>
             result (__init__ h w)
             = Returns (Self zone
                             (getenv h "CALENDAR_JSON_PATH" "./calendar.json")
                             cs)
         | Raises e => __init__ h w = (Raises e, w)
         end.
Proof.
  intros h w urls names. rewrite load_config_run. fold urls names.
  destruct (List.length urls =? List.length names)%nat eqn:E.
  - apply Nat.eqb_eq in E. exists (script_feeds h).
    assert (Hpos : script_feeds h
                   = map descriptor (filter has_url (combine urls names))).
    { unfold script_feeds. fold urls names.
      apply (pair_up_positional urls names 0%nat). exact E. }
    split; [reflexivity|]. split; [|split; [|split; [|split]]].
    + intros d Hd. rewrite Hpos in Hd. apply in_map_iff in Hd.
      destruct Hd as ([u n] & <- & Hin). apply filter_In in Hin.
      destruct Hin as [_ Hu]. unfold has_url in Hu. cbn [fst] in Hu.
      unfold descriptor. cbn [feed_url feed_name fst snd].
      split; [|split; apply strip_idem].
      intros Hnil. rewrite Hnil in Hu. discriminate.
    + rewrite Hpos, length_map.
      eapply Nat.le_trans; [apply filter_length_le|].
      rewrite length_combine. lia.
    + intros _. split; [exact Hpos | reflexivity].
    + intros Hne. contradiction.
    + rewrite init_run. fold urls names.
      destruct (script_zone h) as [zone|e]; [|reflexivity].
      apply Nat.eqb_eq in E. cbv zeta. now rewrite E.
  - exists []. split; [reflexivity|].
    split; [intros d []|]. split; [cbn; lia|]. split; [|split].
    + intros He. apply Nat.eqb_neq in E. contradiction.
    + intros Hne. split; [reflexivity|]. split.
      * cbn. apply in_or_app. right. now left.
      * destruct (script_zone h) as [zone|e] eqn:Hz.
        -- rewrite (script_mismatch_run h zone w Hz Hne).
           split; [reflexivity|]. split; [reflexivity|].
           cbn. apply in_or_app. right. now left.
        -- apply (script_unknown_zone h e w Hz).
    + rewrite init_run. fold urls names.
      destruct (script_zone h) as [zone|e]; [|reflexivity].
      cbv zeta. now rewrite E.
Qed.

(** C8 at work: two URLs and two names. *)
Lemma C8_two_feeds_witness :
  exists cs,
    result (_load_calendar_config (env_host "http://a, http://b" "A,B")
                                  empty_world) = Returns cs
    /\ cs = [Feed "A" "http://a"; Feed "B" "http://b"].
Proof.
  destruct (C8_descriptors (env_host "http://a, http://b" "A,B") empty_world)
    as (cs & Hr & _ & _ & Hsame & _).
  exists cs. split; [exact Hr|].
  destruct (Hsame eq_refl) as [-> _]. reflexivity.
Defined.

(* ================================================================== *)
(** * Two passes on one day *)

Lemma today_any_two (h1 h2 : host) (zone : timezone) (d : date) :
  always_on h1 zone d -> always_on h2 zone d ->
  related any_two (today h1 zone) (today h2 zone).
Proof.
  intros H1 H2 w1 w2 _. unfold today, result, after; cbn.
  rewrite H1, H2. split; [reflexivity | exact I].
Qed.

Section SameDay.

Variables (h1 h2 : host) (d : date).

Hypothesis same_local :
  forall x, local_utcoffset h1 x = local_utcoffset h2 x.
Hypothesis same_parser : forall data, from_ical h1 data = from_ical h2 data.
Hypothesis same_net : forall url, urlopen h1 url = urlopen h2 url.

(** The service gathers the same events from any two worlds. *)
Lemma merged_same_day (self : self_t) (w1 w2 : world) :
  always_on h1 (self_timezone self) d ->
  always_on h2 (self_timezone self) d ->
  merged h1 self w1 = merged h2 self w2.
Proof.
  intros D1 D2.
  destruct (process_calendars_run h1 self w1) as (_ & _ & G1 & _).
  destruct (process_calendars_run h2 self w2) as (_ & _ & G2 & _).
  assert (G : gathered h1 self w1 = gathered h2 self w2).
  { unfold gathered.
    apply (gather_sim any_two (fun _ _ _ _ _ => I) (fun _ _ _ _ _ => I)
             h1 h2 self self eq_refl same_local same_parser
             (fun url => or_introl (same_net url))
             (today_any_two h1 h2 _ d D1 D2)).
    exact I. }
  rewrite G1, G2 in G. unfold merged. now injection G as ->.
Qed.

Hypothesis same_environ : forall k, environ h1 k = environ h2 k.
Lemma script_feeds_same : script_feeds h1 = script_feeds h2.
Proof.
  unfold script_feeds, configured_urls, configured_names, getenv.
  now rewrite !same_environ.
Qed.

(** So does the script, in the zone it found. *)
Lemma script_merged_same_day (zone : timezone) (w1 w2 : world) :
  always_on h1 zone d ->
  always_on h2 zone d ->
  script_merged h1 zone w1 = script_merged h2 zone w2.
Proof.
  intros D1 D2. unfold script_merged, script_batches.
  rewrite <- script_feeds_same.
  destruct (for_loop_concat (ParseCalendar.calendar_step h1 zone)
              (script_feeds h1) (script_step_appends h1 zone)
              [] w1) as [w1' E1].
  destruct (for_loop_concat (ParseCalendar.calendar_step h2 zone)
              (script_feeds h1) (script_step_appends h2 zone)
              [] w2) as [w2' E2].
  pose proof (script_gather_sim any_two (fun _ _ _ _ _ => I) h1 h2
                same_local same_parser zone same_net
                (today_any_two h1 h2 _ d D1 D2) (script_feeds h1) []
                w1 w2 I) as [G _].
  unfold result in G. rewrite E1, E2 in G. cbn [fst app] in G.
  now injection G as ->.
Qed.

End SameDay.

(** C9. The output of a pass is a function of the configuration, the feeds
    and the date: on two clocks whose readings all fall on one date of the
    target zone, and from any two worlds, the service serialises the same
    list and (unless the file cannot be opened, when each pass leaves what
    was there) leaves the same text in its output file; a second pass run
    after a first one leaves the output file as the first left it. The
    script, in the zone its lookup finds, gathers the same list and prints
    the same text in the two runs; when the lookup raises, both runs end
    with that error and print nothing. *)
Theorem C9_same_day_same_output :
  (forall (h : host) (self : self_t) (d : date) (clock' : nat -> Z)
          (w w' : world),
      always_on h (self_timezone self) d ->
      always_on (with_clock h clock') (self_timezone self) d ->
      let h' := with_clock h clock' in
      merged h self w = merged h' self w'
      /\ (disk_fault h <> OpenFails ->
          output self (after (process_calendars h self w))
          = output self (after (process_calendars h' self w')))
      /\ output self (after (process_calendars
                               h self (after (process_calendars h self w))))
         = output self (after (process_calendars h self w)))
  /\ (forall (h : host) (d : date) (clock' : nat -> Z) (w w' : world),
         let h' := with_clock h clock' in
         match script_zone h with
         | Returns zone =>
             always_on h zone d ->
             always_on h' zone d ->
             script_merged h zone w = script_merged h' zone w'
             /\ exists printed,
                  stdout (after (ParseCalendar.main h w))
                  = stdout w ++ printed
                  /\ stdout (after (ParseCalendar.main h' w'))
                     = stdout w' ++ printed
         | Raises e =>
             ParseCalendar.main h w = (Raises e, w)
             /\ ParseCalendar.main h' w' = (Raises e, w')
         end).
Proof.
  split.
  - intros h self d clock' w w' D1 D2 h'.
    assert (M : forall v v', merged h self v = merged h' self v').
    { intros v v'.
      apply (merged_same_day h h' d (fun _ => eq_refl) (fun _ => eq_refl)
               (fun _ => eq_refl) self v v' D1 D2). }
    assert (M1 : forall v v', merged h self v = merged h self v').
    { intros v v'.
      apply (merged_same_day h h d (fun _ => eq_refl) (fun _ => eq_refl)
               (fun _ => eq_refl) self v v' D1 D1). }
    split; [apply M | split].
    + intros Hopen.
      destruct (pass_output h self w) as [_ O1].
      destruct (pass_output h' self w') as [_ O2].
      change (disk_fault h') with (disk_fault h) in O2.
      destruct (disk_fault h) as [| |n].
      * now rewrite O1, O2, (M w w').
      * contradiction.
      * destruct O1 as [-> _], O2 as [-> _]. now rewrite (M w w').
    + destruct (pass_output h self w) as [_ O1].
      destruct (pass_output h self (after (process_calendars h self w)))
        as [_ O2].
      destruct (disk_fault h) as [| |n].
      * now rewrite O1, O2, (M1 _ w).
      * now destruct O2 as [-> _].
      * destruct O1 as [-> _], O2 as [-> _]. now rewrite (M1 _ w).
  - intros h d clock' w w' h'.
    assert (Hz' : script_zone h' = script_zone h) by reflexivity.
    destruct (script_zone h) as [zone|e] eqn:Hz.
    + intros D1 D2.
      assert (M : script_merged h zone w = script_merged h' zone w').
      { apply (script_merged_same_day h h' d (fun _ => eq_refl)
                 (fun _ => eq_refl) (fun _ => eq_refl) (fun _ => eq_refl)
                 zone w w' D1 D2). }
      split; [exact M|].
      destruct (Nat.eq_dec (List.length (configured_urls h))
                           (List.length (configured_names h))) as [E|E].
      * exists [Json.dumps true (script_merged h zone w)]. split.
        -- now apply script_output.
        -- rewrite M. now apply script_output.
      * exists []. rewrite !app_nil_r. split.
        -- now rewrite (script_mismatch_run h zone w Hz E).
        -- now rewrite (script_mismatch_run h' zone w' Hz' E).
    + split; [apply (script_unknown_zone h e w Hz)|].
      apply (script_unknown_zone h' e w' Hz').
Qed.

(** C9 at work: a pass in the morning, from an empty world, and a pass in
    the evening of the same day, from a world that has an earlier output,
    leave the same text in the output file. *)
Lemma C9_morning_and_evening_witness :
  let self := with_calendars london_self [feed_a; feed_b] in
  output self (after (process_calendars morning_host self empty_world))
  = output self (after (process_calendars (with_clock morning_host evening)
                                          self earlier_output)).
Proof.
  cbv zeta.
  destruct C9_same_day_same_output as [Hservice _].
  destruct (Hservice morning_host
                     (with_calendars london_self [feed_a; feed_b])
                     (mkdate 2024 6 16) evening empty_world earlier_output)
    as (_ & Hout & _).
  - intros n. vm_compute. reflexivity.
  - intros n. vm_compute. reflexivity.
  - apply Hout. cbn. discriminate.
Defined.

(* ================================================================== *)
(** * The theorems at work *)


(** C7 at work: on the disk that fails after one character, the output file
    holds that character and the error is in the log. *)
Lemma C7_failing_disk_witness :
  let self := with_calendars london_self [feed_a] in
  let w' := after (process_calendars failing_disk_host self earlier_output) in
  output self w'
  = Some (Str.prefix 1 (Json.dumps false
                          (merged failing_disk_host self earlier_output)))
  /\ In (ERROR, WriteError "./calendar.json" OSError) (log w').
Proof.
  cbv zeta.
  destruct (C7_persisting failing_disk_host
              (with_calendars london_self [feed_a]) earlier_output)
    as (_ & _ & Hfault).
  exact Hfault.
Defined.

(** The calendar arithmetic on the days of the examples. *)
Example civil_dates :
  civil_from_days (days_from_civil 2024 6 16) = (2024, 6, 16)
  /\ civil_from_days (days_from_civil 2024 2 29) = (2024, 2, 29)
  /\ civil_from_days 0 = (1970, 1, 1)
  /\ weekday_from_days (days_from_civil 2024 6 16) = 0
  /\ civil_from_days (last_sunday 2024 3 31) = (2024, 3, 31)
  /\ civil_from_days (last_sunday 2024 10 31) = (2024, 10, 27).
Proof. repeat split. Qed.

(* ================================================================== *)
(** * Further properties of the service *)

(** ** One feed, line by line *)

Section FeedDenotation.

Variables (h : host) (self : self_t).

Let tz := self_timezone self.

Lemma walk_run_exact (t : date) (n : string) (cal : list component) :
  forall (evs : list event) (k : nat) (w : world),
    for_loop (CalendarProcessor.walk_step h self t n) cal (evs, k) w
    = (Returns (evs ++ walk_events h self t n cal,
                (k + List.length (filter is_vevent cal))%nat),
       logged w (walk_warnings h self t cal)).
Proof.
  induction cal as [|c cal IH]; intros evs k w.
  - cbn. now rewrite app_nil_r, Nat.add_0_r, logged_nil.
  - cbn [for_loop]. unfold bind, CalendarProcessor.walk_step at 1.
    unfold walk_events, walk_warnings. cbn [filter]. fold (is_vevent c).
    destruct (is_vevent c) eqn:V.
    + unfold bind. rewrite process_event_run. cbn [flat_map].
      fold (walk_events h self t n cal) (walk_warnings h self t cal).
      destruct (reading_raises h self c t) eqn:Rr.
      * rewrite (reading_raises_no_event h self c t n Rr). unfold ret.
        rewrite IH, logged_logged. cbn [app List.length].
        now rewrite Nat.add_succ_r.
      * destruct (event_of h self c t n) as [e|]; unfold ret; rewrite IH;
          cbn [app List.length]; rewrite ?Nat.add_succ_r, <- ?app_assoc;
          reflexivity.
    + unfold ret. fold (walk_events h self t n cal)
                       (walk_warnings h self t cal).
      apply IH.
Qed.

Lemma found_run (n : string) (events : list event) (w : world) :
  for_loop (fun (_ : unit) e =>
              logger_info (Found (summary e) (start e) n)) events tt w
  = (Returns tt, logged w (found_lines n events)).
Proof.
  revert w. induction events as [|e events IH]; intros w.
  - cbn. now rewrite logged_nil.
  - cbn [for_loop found_lines map]. unfold bind, logger_info at 1.
    rewrite emit_run, IH, logged_logged. reflexivity.
Qed.

Lemma walk_events_length (t : date) (n : string) (cal : list component) :
  (List.length (walk_events h self t n cal)
   <= List.length (filter is_vevent cal))%nat.
Proof.
  unfold walk_events. induction (filter is_vevent cal) as [|c l IH];
    cbn [flat_map List.length]; [lia|].
  rewrite length_app. destruct (event_of h self c t n); cbn; lia.
Qed.

Lemma parse_calendar_events_run :
  forall (data calendar_name : string) (w : world),
    match from_ical h data with
    | Raises e =>
        _parse_calendar_events h self data calendar_name w
        = (Returns [], logged w [(ERROR, ParseError calendar_name e)])
    | Returns cal =>
        let today := today_at tz (clock h (ticks w)) in
        let events := walk_events h self today calendar_name cal in
        let total := List.length (filter is_vevent cal) in
        _parse_calendar_events h self data calendar_name w
        = (Returns events,
           logged (ticked w)
                  ((INFO, ProcessingDate today calendar_name)
                     :: walk_warnings h self today cal
                     ++ (INFO, Processed total (List.length events)
                                         calendar_name)
                     :: found_lines calendar_name events))
        /\ (List.length events <= total)%nat
    end.
Proof.
  intros data n w. unfold _parse_calendar_events.
  destruct (from_ical h data) as [cal|e] eqn:P.
  - cbv zeta. split; [|apply walk_events_length].
    unfold try_except, bind at 1. unfold lift at 1.
    unfold bind at 1. unfold today at 1. cbv iota beta.
    unfold bind at 1. unfold logger_info at 1. rewrite emit_run.
    cbv iota beta. unfold bind at 1.
    fold tz. rewrite walk_run_exact. cbn [app Nat.add].
    unfold bind at 1. unfold logger_info at 1. rewrite emit_run.
    cbv iota beta. unfold bind. rewrite found_run. unfold ret.
    rewrite !logged_logged. reflexivity.
  - unfold try_except, bind, lift, logger_error. rewrite emit_run.
    reflexivity.
Qed.


End FeedDenotation.

(** ** One pass, feed by feed *)

Section PassDenotation.

Variables (h : host) (self : self_t).

(** The step of a feed adds the events of the feed, and reads the clock
    exactly when the feed gets as far as a parsed calendar. *)
Lemma calendar_step_run (acc : list event) (c : feed) (w : world) :
  exists w',
    calendar_step h self acc c w
    = (Returns (acc ++ feed_events h self c (ticks w)), w')
    /\ untouched w w'
    /\ ticks w' = match parsed h c with
                  | Some _ => S (ticks w)
                  | None => ticks w
                  end.
Proof.
  unfold feed_events, parsed.
  destruct (urlopen h (feed_url c)) as [[|a d]|e] eqn:U.
  - rewrite (empty_body_step h self c acc w U), app_nil_r.
    eexists. split; [reflexivity|]. repeat split.
  - destruct (from_ical h (String a d)) as [cal|e] eqn:P.
    + pose proof (parse_calendar_events_run h self (String a d)
                    (feed_name c)
                    (logged w [(INFO, Fetching (feed_url c))])) as Hrun.
      rewrite P in Hrun. cbv zeta in Hrun. destruct Hrun as [Hrun _].
      unfold calendar_step, _fetch_ical_data, try_except, bind,
        logger_info, lift, ret.
      rewrite emit_run, U. cbv iota beta. rewrite Hrun.
      eexists. split; [reflexivity|]. repeat split.
    + rewrite (parse_failure_step h self c e acc w), app_nil_r.
      * eexists. split; [reflexivity|]. repeat split.
      * exists (String a d). repeat split; [exact U | discriminate | exact P].
  - rewrite (fetch_failure_step h self c e acc w U), app_nil_r.
    eexists. split; [reflexivity|]. repeat split.
Qed.

Lemma gather_run (cs : list feed) :
  forall (acc : list event) (w : world),
  exists w',
    for_loop (calendar_step h self) cs acc w
    = (Returns (acc ++ pass_events h self cs (ticks w)), w')
    /\ untouched w w'
    /\ ticks w' = (ticks w + parsed_count h cs)%nat.
Proof.
  induction cs as [|c cs IH]; intros acc w.
  - exists w. cbn. rewrite app_nil_r, Nat.add_0_r.
    repeat split.
  - cbn [for_loop pass_events]. unfold bind.
    destruct (calendar_step_run acc c w) as (w1 & -> & U1 & T1).
    destruct (IH (acc ++ feed_events h self c (ticks w)) w1)
      as (w2 & -> & U2 & T2).
    exists w2. rewrite T1 in *. rewrite <- app_assoc.
    split; [reflexivity|]. split; [eapply untouched_trans; eassumption|].
    rewrite T2. unfold parsed_count. cbn [filter].
    destruct (parsed h c); cbn [List.length]; lia.
Qed.

Lemma pass_run :
  forall (w : world),
    gathered h self w
    = Returns (pass_events h self (self_calendars self) (ticks w))
    /\ ticks (after (process_calendars h self w))
       = (ticks w + parsed_count h (self_calendars self))%nat
    /\ (disk_fault h = NoFault ->
        output self (after (process_calendars h self w))
        = Some (Json.dumps false
                  (Common.sort_by_start
                     (pass_events h self (self_calendars self) (ticks w))))).
Proof.
  intros w.
  destruct (gather_run (self_calendars self) []
              (after (logger_info Starting w))) as (w1 & E & U & T).
  cbn [app] in E.
  assert (G : gathered h self w
              = Returns (pass_events h self (self_calendars self) (ticks w))).
  { unfold gathered. now rewrite E. }
  split; [exact G|]. split.
  - rewrite process_calendars_unfold. unfold bind at 1.
    change (logger_info Starting w)
      with (Returns tt, after (logger_info Starting w)).
    cbv iota beta. unfold bind. rewrite E.
    change (ticks (after (logger_info Starting w))) with (ticks w) in T.
    rewrite <- T. unfold sort_and_save, try_except, bind, write_text.
    destruct (disk_fault h); unfold after; cbn [snd].
    + unfold logger_info at 1. rewrite emit_run.
      match goal with
      | |- context [for_loop ?b ?l tt ?w0] =>
          destruct (counts_run l w0) as [l0 ->]
      end.
      reflexivity.
    + reflexivity.
    + reflexivity.
  - intros Hf. rewrite (service_output h self w Hf). unfold merged.
    destruct (process_calendars_run h self w) as (_ & _ & G' & _).
    rewrite G' in G. now injection G as ->.
Qed.


End PassDenotation.


(** ** What every event of the output carries *)

Section OutputEvents.

Variables (h : host) (self : self_t).

Lemma event_of_record (c : component) (t : date) (n : string) (e : event) :
  event_of h self c t n = Some e ->
  exists dt, dtstart c = Some (vDDDTypes dt)
             /\ _get_event_date h self dt = t
             /\ unreadable (dtend c) = false
             /\ e = event_record h self c dt n.
Proof.
  unfold event_of. destruct (dtstart c) as [[dt|l]|]; try discriminate.
  destruct (date_eqb (_get_event_date h self dt) t) eqn:E;
    [|discriminate].
  destruct (unreadable (dtend c)) eqn:U; [discriminate|].
  cbn [andb negb]. intros [= <-]. exists dt.
  apply date_eqb_eq in E. repeat split; auto.
Qed.

Lemma in_walk_events (t : date) (n : string) (cal : list component)
    (e : event) :
  In e (walk_events h self t n cal) <->
  exists c, In c cal /\ is_vevent c = true /\ event_of h self c t n = Some e.
Proof.
  unfold walk_events. rewrite in_flat_map. split.
  - intros (c & Hc & He). apply filter_In in Hc. destruct Hc as [Hin Hv].
    exists c. repeat split; auto.
    destruct (event_of h self c t n) as [e'|]; [|contradiction].
    destruct He as [<-|[]]. reflexivity.
  - intros (c & Hin & Hv & He). exists c. split.
    + apply filter_In. now split.
    + rewrite He. now left.
Qed.

Lemma in_pass_events (cs : list feed) (e : event) :
  forall n, In e (pass_events h self cs n) ->
            exists c k, In c cs /\ In e (feed_events h self c k).
Proof.
  induction cs as [|c cs IH]; intros n Hin; [contradiction|].
  cbn [pass_events] in Hin. apply in_app_or in Hin.
  destruct Hin as [Hin|Hin].
  - exists c, n. split; [now left | exact Hin].
  - destruct (IH _ Hin) as (c' & k & Hc & He). exists c', k.
    split; [now right | exact He].
Qed.

Lemma in_merged (w : world) (e : event) :
  In e (merged h self w)
  <-> In e (pass_events h self (self_calendars self) (ticks w)).
Proof.
  destruct (pass_run h self w) as (G & _).
  destruct (process_calendars_run h self w) as (_ & _ & G' & _).
  rewrite G' in G. injection G as G. unfold merged. rewrite G. split.
  - intros H. eapply Permutation_in; [|exact H].
    apply Permutation_sym, sort_perm.
  - intros H. eapply Permutation_in; [|exact H]. apply sort_perm.
Qed.

(** X3. Every event of the list a pass serialises names a configured feed
    as its [calendarSource], and is the record of an event component of
    that feed's calendar. *)
Theorem X3_events_name_their_feed :
  forall (w : world) (e : event),
    In e (merged h self w) ->
    exists c cal comp,
      In c (self_calendars self)
      /\ calendarSource e = feed_name c
      /\ parsed h c = Some cal
      /\ In comp cal /\ is_vevent comp = true
      /\ unreadable (dtend comp) = false
      /\ exists dt, dtstart comp = Some (vDDDTypes dt)
                    /\ e = event_record h self comp dt (feed_name c).
Proof.
  intros w e Hin. apply in_merged in Hin.
  destruct (in_pass_events _ _ _ Hin) as (c & k & Hc & He).
  unfold feed_events in He. destruct (parsed h c) as [cal|] eqn:P;
    [|contradiction].
  apply in_walk_events in He. destruct He as (comp & Hcomp & Hv & Hev).
  destruct (event_of_record _ _ _ _ Hev) as (dt & Hs & _ & Hu & ->).
  exists c, cal, comp. repeat split; auto. exists dt. split; auto.
Qed.

(** The string of a value starts with the date the value is compared
    by. *)
Lemma format_starts_with_date (dt : dt_value) :
  exists rest,
    _format_datetime h self dt
    = (date_isoformat (_get_event_date h self dt) ++ "T" ++ rest)%string.
Proof.
  destruct dt as [d|t].
  - rewrite format_datetime_date. cbn [_get_event_date].
    eexists. reflexivity.
  - eexists. reflexivity.
Qed.

(** X4. The start string of every event [_parse_calendar_events] returns
    begins with the ISO form of the date it read from the clock, followed
    by [T]; so does the start string of every event of a pass when all the
    readings of the clock fall on one date of the target zone. *)
Theorem X4_start_begins_with_today :
  (forall (t : date) (n : string) (cal : list component) (e : event),
      In e (walk_events h self t n cal) ->
      exists rest, start e = (date_isoformat t ++ "T" ++ rest)%string)
  /\ (forall (d : date) (w : world) (e : event),
         always_on h (self_timezone self) d ->
         In e (merged h self w) ->
         exists rest, start e = (date_isoformat d ++ "T" ++ rest)%string).
Proof.
  assert (Hwalk : forall t n cal e,
             In e (walk_events h self t n cal) ->
             exists rest, start e = (date_isoformat t ++ "T" ++ rest)%string).
  { intros t n cal e Hin. apply in_walk_events in Hin.
    destruct Hin as (c & _ & _ & Hev).
    destruct (event_of_record _ _ _ _ Hev) as (dt & _ & Hd & _ & ->).
    cbn [event_record start]. rewrite <- Hd.
    apply format_starts_with_date. }
  split; [exact Hwalk|].
  intros d w e Hday Hin. apply in_merged in Hin.
  destruct (in_pass_events _ _ _ Hin) as (c & k & _ & He).
  unfold feed_events in He. destruct (parsed h c); [|contradiction].
  rewrite Hday in He. eapply Hwalk. exact He.
Qed.

End OutputEvents.

(** X3 at work on the small network: the event of 10:00 names feed A. *)
Lemma X3_small_network_witness :
  exists c, In c [feed_a; feed_b] /\ calendarSource event_at_10 = feed_name c.
Proof.
  destruct (X3_events_name_their_feed demo_host
              (with_calendars london_self [feed_a; feed_b]) empty_world
              event_at_10)
    as (c & _ & _ & Hc & Hn & _).
  - vm_compute. left. reflexivity.
  - exists c. split; [exact Hc | exact Hn].
Defined.

(** X4 at work: the event of 10:00 of the morning pass begins with
    2024-06-16T. *)
Lemma X4_morning_witness :
  exists rest,
    start event_at_10
    = (date_isoformat (mkdate 2024 6 16) ++ "T" ++ rest)%string.
Proof.
  destruct (X4_start_begins_with_today morning_host
              (with_calendars london_self [feed_a; feed_b])) as [_ Hpass].
  apply (Hpass (mkdate 2024 6 16) empty_world event_at_10).
  - intros n. vm_compute. reflexivity.
  - vm_compute. left. reflexivity.
Defined.

(** ** The counts by source *)

Section Counts.

Lemma count_of_bump (k k' : string) (counts : list (string * nat)) :
  count_of k (bump k' counts)
  = if String.eqb k' k then S (count_of k counts) else count_of k counts.
Proof.
  induction counts as [|[a n] rest IH]; cbn [bump count_of].
  - reflexivity.
  - destruct (String.eqb_spec a k') as [->|Hak']; cbn [count_of].
    + destruct (String.eqb k' k); reflexivity.
    + rewrite IH. destruct (String.eqb_spec a k) as [->|Hak];
        [|reflexivity].
      apply String.eqb_neq in Hak'. rewrite String.eqb_sym in Hak'.
      now rewrite Hak'.
Qed.

Lemma keys_bump (k : string) (counts : list (string * nat)) :
  map fst (bump k counts)
  = if existsb (String.eqb k) (map fst counts) then map fst counts
    else map fst counts ++ [k].
Proof.
  induction counts as [|[a n] rest IH]; cbn [bump map fst existsb app].
  - reflexivity.
  - rewrite (String.eqb_sym k a).
    destruct (String.eqb a k); cbn [map fst orb]; [reflexivity|].
    rewrite IH. destruct (existsb (String.eqb k) (map fst rest));
      reflexivity.
Qed.

Lemma sum_bump (k : string) (counts : list (string * nat)) :
  list_sum (map snd (bump k counts)) = S (list_sum (map snd counts)).
Proof.
  unfold list_sum.
  induction counts as [|[a n] rest IH]; cbn [bump map snd fold_right].
  - reflexivity.
  - destruct (String.eqb a k); cbn [map snd fold_right]; [reflexivity|].
    rewrite IH. lia.
Qed.

Lemma nodup_bump (k : string) (counts : list (string * nat)) :
  NoDup (map fst counts) -> NoDup (map fst (bump k counts)).
Proof.
  intros H. rewrite keys_bump.
  destruct (existsb (String.eqb k) (map fst counts)) eqn:E; [exact H|].
  apply NoDup_app; [exact H | repeat constructor; intros [] |].
  intros x Hx [Hk|[]]. subst x.
  assert (existsb (String.eqb k) (map fst counts) = true) as Ht.
  { apply existsb_exists. exists k. split; [exact Hx|].
    apply String.eqb_refl. }
  congruence.
Qed.

Lemma counts_fold (l : list event) :
  forall acc : list (string * nat),
    let counts := fold_left (fun cs e => bump (calendarSource e) cs) l acc in
    (forall k, count_of k counts
               = (count_of k acc
                  + List.length (filter (from_source k) l))%nat)
    /\ list_sum (map snd counts)
       = (list_sum (map snd acc) + List.length l)%nat
    /\ (NoDup (map fst acc) -> NoDup (map fst counts)).
Proof.
  induction l as [|e l IH]; intros acc; cbn [fold_left filter List.length].
  - cbv zeta. repeat split; intros; auto; lia.
  - destruct (IH (bump (calendarSource e) acc)) as (Hc & Hs & Hn).
    cbv zeta. repeat split.
    + intros k. rewrite Hc, count_of_bump. unfold from_source at 2.
      destruct (String.eqb (calendarSource e) k); cbn [List.length]; lia.
    + rewrite Hs, sum_bump. lia.
    + intros Hd. apply Hn. now apply nodup_bump.
Qed.

Lemma bump_positive (k : string) (acc : list (string * nat)) :
  (forall a m, In (a, m) acc -> (0 < m)%nat) ->
  forall a m, In (a, m) (bump k acc) -> (0 < m)%nat.
Proof.
  induction acc as [|[b p] rest IH]; intros Hacc a m Hi; cbn [bump] in Hi.
  - destruct Hi as [[= <- <-]|[]]. lia.
  - destruct (String.eqb b k).
    + destruct Hi as [[= <- <-]|Hi]; [lia|].
      apply (Hacc a m). now right.
    + destruct Hi as [[= <- <-]|Hi].
      * apply (Hacc b p). now left.
      * apply (IH (fun x y Hxy => Hacc x y (or_intror Hxy)) a m Hi).
Qed.

Lemma counts_positive (l : list event) :
  forall acc : list (string * nat),
    (forall a m, In (a, m) acc -> (0 < m)%nat) ->
    forall a m,
      In (a, m) (fold_left (fun cs e => bump (calendarSource e) cs) l acc) ->
      (0 < m)%nat.
Proof.
  induction l as [|e l IH]; intros acc Hacc a m Hi; cbn [fold_left] in Hi.
  - eauto.
  - apply (IH _ (bump_positive (calendarSource e) acc Hacc) a m Hi).
Qed.

(** X5. In the counts a pass logs, each source appears once; the count of a
    source is the number of events of that source (so it is positive for
    the sources listed and no other source has events), and the counts add
    up to the number of events. *)
Theorem X5_calendar_counts :
  forall (all_events : list event),
    NoDup (map fst (calendar_counts all_events))
    /\ (forall cal_name,
           count_of cal_name (calendar_counts all_events)
           = List.length (filter (from_source cal_name) all_events))
    /\ (forall cal_name n,
           In (cal_name, n) (calendar_counts all_events) ->
           n = List.length (filter (from_source cal_name) all_events)
           /\ (0 < n)%nat)
    /\ list_sum (map snd (calendar_counts all_events))
       = List.length all_events.
Proof.
  intros l. unfold calendar_counts.
  destruct (counts_fold l []) as (Hc & Hs & Hn). cbv zeta in *.
  assert (Hd : NoDup (map fst (fold_left
                                 (fun cs e => bump (calendarSource e) cs)
                                 l []))) by (apply Hn; constructor).
  split; [exact Hd|]. split; [intros k; now rewrite Hc|].
  split; [|now rewrite Hs].
  intros k n Hin.
  assert (Hlook : forall counts : list (string * nat),
             NoDup (map fst counts) -> In (k, n) counts ->
             count_of k counts = n).
  { induction counts as [|[a m] rest IHc]; intros Hnd Hi; [contradiction|].
    cbn [count_of]. cbn [map fst] in Hnd. inversion Hnd as [|? ? Hnotin Hnd'];
      subst.
    destruct Hi as [[= -> ->]|Hi]; [now rewrite String.eqb_refl|].
    destruct (String.eqb_spec a k) as [->|Hne]; [|now apply IHc].
    exfalso. apply Hnotin. apply in_map_iff. now exists (k, n). }
  pose proof (Hlook _ Hd Hin) as Hk. rewrite Hc in Hk. cbn [count_of] in Hk.
  split; [now rewrite <- Hk|].
  eapply counts_positive; [|exact Hin]. intros a m [].
Qed.

End Counts.

(** X5 at work: the two events of feed A in the small network. *)
Lemma X5_small_network_witness :
  2%nat = List.length
            (filter (from_source "A")
                    (merged demo_host
                            (with_calendars london_self [feed_a; feed_b])
                            empty_world))
  /\ (0 < 2)%nat.
Proof.
  destruct (X5_calendar_counts
              (merged demo_host (with_calendars london_self [feed_a; feed_b])
                      empty_world)) as (_ & _ & Hin & _).
  apply (Hin "A"%string 2%nat). vm_compute. left. reflexivity.
Defined.

(** ** When no feed gets through *)

Lemma pass_events_none (h : host) (self : self_t) (cs : list feed) :
  (forall c, In c cs -> parsed h c = None) ->
  forall n, pass_events h self cs n = [].
Proof.
  induction cs as [|c cs IH]; intros Hnone n; [reflexivity|].
  cbn [pass_events]. unfold feed_events.
  rewrite (Hnone c (or_introl eq_refl)). cbn [app].
  apply IH. intros c' Hc'. apply Hnone. now right.
Qed.

(** X6. When no configured feed gets as far as a parsed calendar (each
    fetch raises, or returns no bytes, or returns bytes that do not parse;
    or no feed is configured), a pass whose write succeeds replaces the
    content of the output file by the empty array. *)
Theorem X6_nothing_fetched_empties_the_output :
  forall (h : host) (self : self_t) (w : world),
    (forall c, In c (self_calendars self) -> parsed h c = None) ->
    disk_fault h = NoFault ->
    output self (after (process_calendars h self w)) = Some "[]"%string.
Proof.
  intros h self w Hnone Hf.
  destruct (pass_run h self w) as (_ & _ & Hout).
  rewrite (Hout Hf), (pass_events_none h self _ Hnone). reflexivity.
Qed.

(** X6 at work: the feed that is down and the feed that answers with no
    bytes, over an earlier output. *)
Lemma X6_network_down_witness :
  let self := with_calendars london_self [feed_down; feed_empty; feed_junk] in
  output self earlier_output = Some "[]"%string
  /\ output self (after (process_calendars demo_host self earlier_output))
     = Some "[]"%string.
Proof.
  cbv zeta. split; [reflexivity|].
  apply (X6_nothing_fetched_empties_the_output demo_host
           (with_calendars london_self [feed_down; feed_empty; feed_junk])
           earlier_output).
  - intros c [<-|[<-|[<-|[]]]]; reflexivity.
  - reflexivity.
Defined.

(* ================================================================== *)
(** * Further properties of the script *)



Section ScriptDenotation.

Variables (h : host) (zone : timezone).





End ScriptDenotation.


Section ScriptPass.

Variables (h : host) (zone : timezone).



End ScriptPass.




(* ================================================================== *)
(** * The script and the service, side by side *)

Section SideBySide.

Variables (h : host) (self : self_t).

Let zone := self_timezone self.





End SideBySide.


(* ================================================================== *)
(** * Further properties of the time normalisation *)

Section Instants.

Variables (h : host) (self : self_t).

Let tz := self_timezone self.

Lemma format_by_instant (t : datetime) :
  _format_datetime h self (DT t) = isoformat (fromutc tz (instant_of h t))
  /\ _get_event_date h self (DT t) = date_of (fromutc tz (instant_of h t)).
Proof. split; reflexivity. Qed.

End Instants.

(** ** The order of the start strings and the order of time *)

Lemma compare_refl (s : string) : String.compare s s = Eq.
Proof.
  pose proof (String.compare_antisym s s) as H.
  destruct (String.compare s s); cbn in H; try discriminate; reflexivity.
Qed.

Lemma compare_app (x y a b : string) :
  String.length x = String.length y ->
  String.compare (x ++ a) (y ++ b)
  = match String.compare x y with
    | Eq => String.compare a b
    | r => r
    end.
Proof.
  revert y. induction x as [|c x IH]; intros [|d y] Hlen;
    try discriminate Hlen; cbn [String.append String.compare].
  - reflexivity.
  - destruct (Ascii.compare c d); try reflexivity.
    apply IH. now injection Hlen.
Qed.

Lemma pad2_table :
  forallb (fun x =>
             forallb (fun y =>
                        match String.compare (pad2 x) (pad2 y), x ?= y with
                        | Eq, Eq | Lt, Lt | Gt, Gt => true
                        | _, _ => false
                        end)
                     (map Z.of_nat (seq 0 100)))
          (map Z.of_nat (seq 0 100))
  = true.
Proof. vm_compute. reflexivity. Qed.

Lemma in_small (x : Z) : 0 <= x < 100 -> In x (map Z.of_nat (seq 0 100)).
Proof.
  intros Hx. apply in_map_iff. exists (Z.to_nat x). split; [lia|].
  apply in_seq. lia.
Qed.

(** Two digits compare as the numbers they write. *)
Lemma pad2_compare (x y : Z) :
  0 <= x < 100 -> 0 <= y < 100 ->
  String.compare (pad2 x) (pad2 y) = (x ?= y).
Proof.
  intros Hx Hy. pose proof pad2_table as T.
  rewrite forallb_forall in T. specialize (T x (in_small x Hx)).
  rewrite forallb_forall in T. specialize (T y (in_small y Hy)).
  destruct (String.compare (pad2 x) (pad2 y)), (x ?= y);
    try discriminate T; reflexivity.
Qed.

(** The time of day compares as the seconds it writes. *)
Lemma iso_time_compare (s1 s2 : Z) :
  0 <= s1 < 86400 -> 0 <= s2 < 86400 ->
  String.compare (iso_time s1) (iso_time s2) = (s1 ?= s2).
Proof.
  intros H1 H2. unfold iso_time.
  assert (Hd : forall s, 0 <= s < 86400 ->
             0 <= s / 3600 < 100 /\ 0 <= s / 60 mod 60 < 60
             /\ 0 <= s mod 60 < 60
             /\ s = 3600 * (s / 3600) + 60 * (s / 60 mod 60) + s mod 60).
  { intros s Hs.
    pose proof (Z.div_mod s 60 ltac:(lia)) as E1.
    pose proof (Z.div_mod (s / 60) 60 ltac:(lia)) as E2.
    rewrite Z.div_div in E2 by lia. change (60 * 60) with 3600 in E2.
    pose proof (Z.mod_pos_bound s 60 ltac:(lia)).
    pose proof (Z.mod_pos_bound (s / 60) 60 ltac:(lia)).
    assert (0 <= s / 3600 < 24)
      by (split; [apply Z.div_pos; lia
                 | apply Z.div_lt_upper_bound; lia]).
    repeat split; lia. }
  destruct (Hd s1 H1) as (Ha1 & Hb1 & Hc1 & E1).
  destruct (Hd s2 H2) as (Ha2 & Hb2 & Hc2 & E2).
  set (a1 := s1 / 3600) in *. set (b1 := s1 / 60 mod 60) in *.
  set (c1 := s1 mod 60) in *. set (a2 := s2 / 3600) in *.
  set (b2 := s2 / 60 mod 60) in *. set (c2 := s2 mod 60) in *.
  rewrite compare_app by reflexivity. rewrite pad2_compare by lia.
  cbn [String.append String.compare Ascii.compare].
  change (Ascii.compare ":" ":") with Eq. cbv iota.
  rewrite compare_app by reflexivity. rewrite pad2_compare by lia.
  cbn [String.append String.compare]. change (Ascii.compare ":" ":") with Eq.
  cbv iota. rewrite pad2_compare by lia.
  symmetry.
  destruct (Z.compare_spec a1 a2) as [Ea|La|Ga];
    [ destruct (Z.compare_spec b1 b2) as [Eb|Lb|Gb];
      [ destruct (Z.compare_spec c1 c2) as [Ec|Lc|Gc] | | ] | | ];
    first [ apply Z.compare_eq_iff; lia
          | apply Z.compare_lt_iff; lia
          | apply Z.compare_gt_iff; lia ].
Qed.

(** Two datetimes of one day and one offset: their strings are in the order
    of their wall clocks. *)
Lemma isoformat_leb (a b : datetime) :
  wall a / 86400 = wall b / 86400 -> tzinfo a = tzinfo b ->
  (String.leb (isoformat a) (isoformat b) = true <-> wall a <= wall b).
Proof.
  intros Hday Hoff. unfold isoformat, String.leb. rewrite Hday, Hoff.
  rewrite compare_app by reflexivity. rewrite compare_refl.
  cbn [String.append String.compare]. change (Ascii.compare "T" "T") with Eq.
  cbv iota.
  assert (Hlen : forall s, String.length (iso_time s) = 8%nat)
    by reflexivity.
  rewrite compare_app by (now rewrite !Hlen).
  rewrite iso_time_compare by (apply Z.mod_pos_bound; lia).
  rewrite compare_refl.
  pose proof (Z.div_mod (wall a) 86400 ltac:(lia)) as Ea.
  pose proof (Z.div_mod (wall b) 86400 ltac:(lia)) as Eb.
  rewrite Hday in Ea.
  destruct (Z.compare_spec (wall a mod 86400) (wall b mod 86400));
    split; intros; try reflexivity; try discriminate; lia.
Qed.

(** X11. Among datetimes that the service puts on one date of the target
    zone, at instants where the zone has one offset, the strings it emits
    are in the order of the instants: sorting by start string is sorting by
    time. *)
Theorem X11_string_order_is_time_order :
  forall (h : host) (self : self_t) (t1 t2 : datetime),
    let tz := self_timezone self in
    _get_event_date h self (DT t1) = _get_event_date h self (DT t2) ->
    utcoffset_at tz (instant_of h t1) = utcoffset_at tz (instant_of h t2) ->
    (String.leb (_format_datetime h self (DT t1))
                (_format_datetime h self (DT t2)) = true
     <-> instant_of h t1 <= instant_of h t2).
Proof.
  intros h self t1 t2 tz Hdate Hoff.
  destruct (format_by_instant h self t1) as [F1 D1].
  destruct (format_by_instant h self t2) as [F2 D2].
  rewrite F1, F2. rewrite D1, D2 in Hdate. fold tz in Hdate |- *.
  unfold date_of in Hdate. injection Hdate as Hday.
  rewrite isoformat_leb.
  - unfold fromutc. cbn [wall]. rewrite Hoff. lia.
  - exact Hday.
  - unfold fromutc. cbn [tzinfo]. now rewrite Hoff.
Qed.

(** X11 at work: 10:00 and 14:00 of 2024-06-16 in London. *)
Lemma X11_morning_afternoon_witness :
  String.leb
    (_format_datetime utc_host london_self (DT (aware 2024 6 16 10 0 0 3600)))
    (_format_datetime utc_host london_self (DT (aware 2024 6 16 14 0 0 3600)))
  = true.
Proof.
  apply (X11_string_order_is_time_order utc_host london_self
           (aware 2024 6 16 10 0 0 3600) (aware 2024 6 16 14 0 0 3600)).
  - vm_compute. reflexivity.
  - vm_compute. reflexivity.
  - vm_compute. discriminate.
Defined.

(* ================================================================== *)
(** * Further properties of the configuration *)

(** X12. The service never reports that its two variables "must be set":
    loading the configuration logs either the number of calendars loaded or
    the mismatch of the two lists, and nothing else. With an environment
    that sets none of the variables, the constructor looks up the zone
    named Europe/London: with that zone in the tz database it returns a
    service for it that writes to ./calendar.json and has no feed, and
    logs the zone and that zero calendars were loaded, and the pass of
    that service then leaves the empty array in that file; without it the
    constructor ends with the error of the lookup and logs nothing. *)
Theorem X12_nothing_configured :
  forall (h : host) (w : world),
    (after (_load_calendar_config h w)
     = logged w [(INFO, Loaded (List.length (script_feeds h)))]
     \/ after (_load_calendar_config h w)
        = logged w [(ERROR, ConfigMismatch)])
    /\ ((forall k, environ h k = None) ->
        match pytz_timezone h "Europe/London" with
        | Returns zone =>
            __init__ h w
            = (Returns (Self zone "./calendar.json" []),
               logged w [(INFO, UsingTimezone "Europe/London");
                         (INFO, Loaded 0)])
            /\ (disk_fault h = NoFault ->
                forall w',
                  files (after (process_calendars
                                  h (Self zone "./calendar.json" []) w'))
                        "./calendar.json"
                  = Some "[]"%string)
        | Raises e => __init__ h w = (Raises e, w)
        end).
Proof.
  intros h w. split.
  - rewrite load_config_run.
    destruct (List.length (configured_urls h)
              =? List.length (configured_names h))%nat; [now left | now right].
  - intros Hnone.
    assert (Eu : configured_urls h = [EmptyString])
      by (unfold configured_urls, getenv; now rewrite Hnone).
    assert (En : configured_names h = [EmptyString])
      by (unfold configured_names, getenv; now rewrite Hnone).
    assert (Ez : script_zone h = pytz_timezone h "Europe/London")
      by (unfold script_zone, getenv; now rewrite Hnone).
    rewrite init_run, Ez.
    destruct (pytz_timezone h "Europe/London") as [zone|e]; [|reflexivity].
    split.
    + unfold script_feeds, getenv. rewrite Eu, En, !Hnone. reflexivity.
    + intros Hf w'.
      apply (service_output h (Self zone "./calendar.json" []) w' Hf).
Qed.

(** X12 at work: the host of the examples sets no variable. *)
Lemma X12_empty_environment_witness :
  __init__ utc_host empty_world
  = (Returns (Self Europe_London "./calendar.json" []),
     logged empty_world [(INFO, UsingTimezone "Europe/London");
                         (INFO, Loaded 0)]).
Proof.
  apply (X12_nothing_configured utc_host empty_world). reflexivity.
Defined.

(** ** Calendars of timed events *)

Section TimedCalendars.

Variables (h : host) (self : self_t).

Let zone := self_timezone self.




End TimedCalendars.


(** Where the zone changes its offset within the day, the order of the
    strings is not the order of time: on 2024-10-27 in London, 01:15 UTC
    (written 01:15:00+00:00) sorts before 00:30 UTC (written
    01:30:00+01:00). *)
Example offset_change_reorders :
  let early := DT (aware 2024 10 27 0 30 0 0) in
  let late := DT (aware 2024 10 27 1 15 0 0) in
  _format_datetime utc_host london_self early
  = "2024-10-27T01:30:00+01:00"%string
  /\ _format_datetime utc_host london_self late
     = "2024-10-27T01:15:00+00:00"%string
  /\ String.leb (_format_datetime utc_host london_self late)
                (_format_datetime utc_host london_self early) = true.
Proof. cbv zeta. split; [|split]; vm_compute; reflexivity. Qed.
